(** * A shallow embedding of the PTY wrapper ([pty-wrapper.py])

    The wrapper relays bytes between the controlling terminal and a child
    attached to a pseudo-terminal, watches the child's output for a
    numbered permission prompt, and restores the terminal on exit.

    Layout:
    - [PyStr]: Python [str] values as lists of code points, with the
      handful of [str] methods the wrapper calls;
    - [Regex]: the backtracking combinators the two patterns are built of;
    - [Detector]: [strip_ansi] and [detect_permission_prompt];
    - [Geometry]: [set_winsize] and the window-size handler;
    - [Relay]: the [select] loop of [main], its interrupt handler and its
      [finally] block, run against a script of system-call outcomes. *)

From Stdlib Require Import String Ascii NArith ZArith Bool Lia List.
Import ListNotations.

Set Implicit Arguments.

(* ================================================================== *)
(** ** Python strings *)

Module PyStr.

Local Open Scope N_scope.

(** A [str] is a sequence of Unicode code points. *)
Definition char := N.
Definition str := list char.

(** ASCII literals, for writing the constants of the source. *)
Definition lit (s : string) : str := map N_of_ascii (list_ascii_of_string s).

Definition LF : char := 10.
Definition ESC : char := 27.
Definition BEL : char := 7.

Definition in_range (lo hi c : char) : bool := (lo <=? c) && (c <=? hi).

(** [str.isspace] on one character, which is also the class [\s] of a
    [str] pattern: the white-space table of the interpreter. *)
Definition isspace (c : char) : bool :=
  in_range 9 13 c || in_range 28 32 c || (c =? 133) || (c =? 160)
  || (c =? 5760) || in_range 8192 8202 c || (c =? 8232) || (c =? 8233)
  || (c =? 8239) || (c =? 8287) || (c =? 12288).

Fixpoint lstrip (s : str) : str :=
  match s with
  | c :: s' => if isspace c then lstrip s' else s
  | [] => []
  end.

Definition rstrip (s : str) : str := rev (lstrip (rev s)).

(** [s.strip()] *)
Definition strip (s : str) : str := rstrip (lstrip s).

(** [s.split('\n')]: never empty, one more piece than there are line feeds. *)
Fixpoint split_nl (s : str) : list str :=
  match s with
  | [] => [[]]
  | c :: s' =>
      if c =? LF then [] :: split_nl s'
      else match split_nl s' with
           | l :: ls => (c :: l) :: ls
           | [] => [[c]]
           end
  end.

Fixpoint starts_with (p s : str) : bool :=
  match p, s with
  | [], _ => true
  | a :: p', b :: s' => (a =? b) && starts_with p' s'
  | _ :: _, [] => false
  end.

(** [p in s] *)
Fixpoint contains (p s : str) : bool :=
  starts_with p s ||
  match s with
  | [] => false
  | _ :: s' => contains p s'
  end.

(** [w] stands somewhere in [s], whatever comes before and after it. *)
Definition occurs (w s : str) : Prop :=
  exists pre post, s = pre ++ w ++ post.

Definition is_ascii (c : char) : bool := c <? 128.

Definition ascii_lower (c : char) : char :=
  if in_range 65 90 c then c + 32 else c.

Definition ascii_decimal (c : char) : option N :=
  if in_range 48 57 c then Some (c - 48) else None.

(** The two pieces of the Unicode character database the wrapper reaches
    through [str.lower], [\d] and [int]: they are taken as an interface,
    fixed on ASCII, where every version of the database agrees. *)
Class Unicode := {
  (** the decimal value of a character of category Nd *)
  todecimal : char -> option N;
  (** [s.lower()] *)
  lower : str -> str;
  todecimal_ascii :
    forall c, is_ascii c = true -> todecimal c = ascii_decimal c;
  lower_ascii :
    forall s, forallb is_ascii s = true -> lower s = map ascii_lower s
}.

(** The database cut down to ASCII: nothing else is a digit or has case. *)
Definition ascii_unicode : Unicode.
Proof.
  refine {| todecimal := fun c => if is_ascii c then ascii_decimal c else None;
            lower := map ascii_lower |}.
  - intros c H. rewrite H. reflexivity.
  - reflexivity.
Defined.

Section WithUnicode.
Context {U : Unicode}.

(** the class [\d] *)
Definition isdecimal (c : char) : bool :=
  match todecimal c with Some _ => true | None => false end.

Definition digit_value (c : char) : N :=
  match todecimal c with Some v => v | None => 0 end.

(** [int(s)] on a run of decimal digits.  (An interpreter that limits
    the length of such a run does so at 4300 digits; the buffer the
    detector is handed holds 2048 characters.) *)
Definition int_of (ds : str) : N :=
  fold_left (fun acc c => 10 * acc + digit_value c) ds 0.
End WithUnicode.

End PyStr.

(* ================================================================== *)
(** ** Backtracking pattern pieces

    Python's [re] is a backtracking matcher: a greedy repetition tries the
    longest run first and gives characters back one at a time, a lazy one
    tries the shortest first.  Each piece takes the rest of the pattern as
    a continuation [k], which answers with the result of the whole match. *)

Module Regex.
Import PyStr.

Section Pieces.
Variable R : Type.

(** [cls*] followed by [k]; [acc] is the text taken so far. *)
Fixpoint star (cls : char -> bool) (acc : str)
         (k : str -> str -> option R) (s : str) : option R :=
  match s with
  | c :: s' =>
      if cls c then
        match star cls (acc ++ [c]) k s' with
        | Some r => Some r
        | None => k acc s
        end
      else k acc s
  | [] => k acc []
  end.

(** [cls+] followed by [k] *)
Definition plus (cls : char -> bool)
           (k : str -> str -> option R) (s : str) : option R :=
  match s with
  | c :: s' => if cls c then star cls [c] k s' else None
  | [] => None
  end.

(** [cls*?] followed by [k] *)
Fixpoint lazy_star (cls : char -> bool)
         (k : str -> option R) (s : str) : option R :=
  match k s with
  | Some r => Some r
  | None =>
      match s with
      | c :: s' => if cls c then lazy_star cls k s' else None
      | [] => None
      end
  end.

(** a literal *)
Definition chr (a : char) (k : str -> option R) (s : str) : option R :=
  match s with
  | c :: s' => if N.eqb c a then k s' else None
  | [] => None
  end.

(** one character of a class *)
Definition one (cls : char -> bool) (k : str -> option R) (s : str)
  : option R :=
  match s with
  | c :: s' => if cls c then k s' else None
  | [] => None
  end.

(** [r1|r2]: the left branch first *)
Definition alt (r1 r2 : str -> option R) (s : str) : option R :=
  match r1 s with
  | Some r => Some r
  | None => r2 s
  end.
End Pieces.

(** [.] without DOTALL *)
Definition dot (c : char) : bool := negb (N.eqb c LF).

(** [$] without MULTILINE: the end, or the line feed that ends the text. *)
Definition at_end (s : str) : bool :=
  match s with
  | [] => true
  | [c] => N.eqb c LF
  | _ => false
  end.

End Regex.

(* ================================================================== *)
(** ** The prompt detector *)

Module Detector.
Import PyStr Regex.

Local Open Scope N_scope.

(** *** [strip_ansi] *)

Definition is_param (c : char) : bool := in_range 48 57 c || (c =? 59).
Definition is_letter (c : char) : bool := in_range 97 122 c || in_range 65 90 c.
(** the class [[PX^_]] *)
Definition is_string_intro (c : char) : bool :=
  (c =? 80) || (c =? 88) || (c =? 94) || (c =? 95).

(** [\x1b\[[0-9;]*[a-zA-Z]]; the answer is the text after the match. *)
Definition csi : str -> option str :=
  chr ESC (chr 91 (star is_param [] (fun _ => one is_letter (@Some str)))).

(** [\x1b\].*?\x07] *)
Definition osc : str -> option str :=
  chr ESC (chr 93 (lazy_star dot (chr BEL (@Some str)))).

(** [\x1b[PX^_].*?\x1b\\] *)
Definition dcs : str -> option str :=
  chr ESC (one is_string_intro
    (lazy_star dot (chr ESC (chr 92 (@Some str))))).

Definition ansi_pattern : str -> option str := alt csi (alt osc dcs).

(** [ansi_pattern.sub('', s)], scanning left to right: [skip] characters
    of a match found earlier are still to be dropped.  A match of this
    pattern is never empty, so the scan resumes right after it. *)
Fixpoint sub_empty (skip : nat) (s : str) : str :=
  match s with
  | [] => []
  | c :: s' =>
      match skip with
      | S n => sub_empty n s'
      | O =>
          match ansi_pattern s with
          | Some rest => sub_empty (length s' - length rest) s'
          | None => c :: sub_empty 0 s'
          end
      end
  end.

Definition strip_ansi (text : str) : str := sub_empty 0 text.

(** *** [detect_permission_prompt] *)

Record option_entry := {
  opt_id : N;
  opt_label : str;
  requiresInput : bool
}.

(** The dictionary the detector returns; its ['type'] is always
    ['permission_prompt']. *)
Record prompt := {
  question : str;
  options : list option_entry
}.

(** the class [[â€º\s]] as the source file spells it: U+00E2, U+20AC,
    U+00BA and white space *)
Definition is_marker (c : char) : bool :=
  (c =? 226) || (c =? 8364) || (c =? 186) || isspace c.

Section WithUnicode.
Context {U : Unicode}.

(** [re.match(r'^[â€º\s]*(\d+)\.\s+(.+)$', line)]: the two groups. *)
Definition option_pattern (line : str) : option (str * str) :=
  star is_marker []
    (fun _ =>
       plus isdecimal
         (fun digits =>
            chr 46
              (plus isspace
                 (fun _ =>
                    plus dot
                      (fun label rest =>
                         if at_end rest then Some (digits, label)
                         else None)))))
    line.

Definition mentions (word : string) (s : str) : bool :=
  contains (lit word) (lower s).

(** the test of the question line *)
Definition is_question (line : str) : bool :=
  (mentions "want to" line || mentions "allow" line || mentions "proceed" line)
  && existsb (N.eqb 63) line.

Definition make_option (groups : str * str) : option_entry :=
  let opt_label := strip (snd groups) in
  {| opt_id := int_of (fst groups);
     opt_label := opt_label;
     requiresInput := mentions "type" opt_label || mentions "tell" opt_label |}.

(** One turn of the loop over the lines; the state is the pair of
    [question] ([None] until a line qualifies) and [options]. *)
Definition scan_line (acc : option str * list option_entry) (raw : str)
  : option str * list option_entry :=
  let line := strip raw in
  let question := if is_question line then Some line else fst acc in
  let options :=
    match option_pattern line with
    | Some groups => snd acc ++ [make_option groups]
    | None => snd acc
    end in
  (question, options).

(** [question or 'Permission required'] *)
Definition question_or_default (q : option str) : str :=
  match q with
  | Some (c :: s) => c :: s
  | _ => lit "Permission required"
  end.

Definition detect_permission_prompt (text : str) : option prompt :=
  let clean := strip_ansi text in
  let lines := split_nl clean in
  let found := fold_left scan_line lines (None, []) in
  if (2 <=? length (snd found))%nat then
    Some {| question := question_or_default (fst found);
            options := snd found |}
  else None.

(** A line of the cleaned text that the loop turns into an option. *)
Definition is_option_line (raw : str) : bool :=
  match option_pattern (strip raw) with Some _ => true | None => false end.

(** The options one line contributes to the list. *)
Definition line_options (raw : str) : list option_entry :=
  match option_pattern (strip raw) with
  | Some groups => [make_option groups]
  | None => []
  end.

End WithUnicode.

(** *** Well-formed terminal output

    Text as a terminal program writes it: runs of plain characters between
    control sequences of the three forms the pattern names. *)
Inductive piece :=
| Plain (s : str)
| Csi (params : str) (final : char)
| Osc (body : str)
| Dcs (intro : char) (body : str).

Definition render (p : piece) : str :=
  match p with
  | Plain s => s
  | Csi params final => ESC :: 91 :: params ++ [final]
  | Osc body => ESC :: 93 :: body ++ [BEL]
  | Dcs intro body => ESC :: intro :: body ++ [ESC; 92]
  end.

Definition plain_of (p : piece) : str :=
  match p with
  | Plain s => s
  | _ => []
  end.

Definition is_not (a : char) (c : char) : bool := negb (c =? a).

Definition well_formed (p : piece) : bool :=
  match p with
  | Plain s => forallb (is_not ESC) s
  | Csi params final => forallb is_param params && is_letter final
  | Osc body => forallb (fun c => is_not LF c && is_not BEL c) body
  | Dcs intro body =>
      is_string_intro intro
      && forallb (fun c => is_not LF c && is_not ESC c) body
  end.

Definition render_all (ps : list piece) : str := flat_map render ps.
Definition plain_text (ps : list piece) : str := flat_map plain_of ps.

End Detector.

(* ================================================================== *)
(** ** Calls into the operating system *)

Module Sys.

(** How a call ends: it returns, it raises [OSError], or the interrupt
    signal arrives while it runs and [KeyboardInterrupt] is raised. *)
Inductive result (A : Type) : Type :=
| Ok (a : A)
| OSError
| KeyboardInterrupt.

Arguments OSError {A}.
Arguments KeyboardInterrupt {A}.

Definition bytes := list Byte.byte.

(** The status word of [waitpid], with the macros of [os] as Linux
    defines them. *)
Definition WIFEXITED (status : Z) : bool := (Z.land status 127 =? 0)%Z.
Definition WEXITSTATUS (status : Z) : Z := Z.land (Z.shiftr status 8) 255.
(** the status word of a child that called [exit(ret)] *)
Definition W_EXITCODE (ret sig : Z) : Z := Z.lor (Z.shiftl ret 8) sig.

End Sys.

(* ================================================================== *)
(** ** Terminal geometry *)

Module Geometry.
Import Sys.

Local Open Scope N_scope.

(** [os.terminal_size]: a pair whose first item is [columns] and whose
    second is [lines]. *)
Record terminal_size := { columns : N; lines : N }.

(** [struct winsize], the four unsigned shorts of [TIOCSWINSZ]. *)
Record winsize := {
  ws_row : N;
  ws_col : N;
  ws_xpixel : N;
  ws_ypixel : N
}.

(** [set_winsize(fd, rows, cols)]: the geometry the pseudo-terminal has
    afterwards. *)
Definition set_winsize (rows cols : N) : winsize :=
  {| ws_row := rows; ws_col := cols; ws_xpixel := 0; ws_ypixel := 0 |}.

(** [rows, cols = os.get_terminal_size()]: the tuple is unpacked in the
    order of its items. *)
Definition unpack (size : terminal_size) : N * N :=
  (columns size, lines size).

(** The geometry given to the slave side before the fork; [query] is the
    outcome of [os.get_terminal_size()], [None] for [OSError]. *)
Definition initial_winsize (stdin_is_tty : bool)
  (query : option terminal_size) : winsize :=
  if stdin_is_tty then
    match query with
    | Some size => let '(rows, cols) := unpack size in set_winsize rows cols
    | None => set_winsize 24 80
    end
  else set_winsize 24 80.

(** [handle_sigwinch]: the geometry of the pseudo-terminal after the
    handler ran, [pty] being the one before. *)
Definition handle_sigwinch (stdin_is_tty : bool)
  (query : option terminal_size) (pty : winsize) : winsize :=
  if stdin_is_tty then
    match query with
    | Some size => let '(rows, cols) := unpack size in set_winsize rows cols
    | None => pty
    end
  else pty.

(** What the terminal size denotes as a window geometry. *)
Definition geometry_of (size : terminal_size) : winsize :=
  {| ws_row := lines size; ws_col := columns size;
     ws_xpixel := 0; ws_ypixel := 0 |}.

End Geometry.

(* ================================================================== *)
(** ** The relay loop of [main]

    The parent's side of [main], from [os.close(slave_fd)] to [sys.exit],
    run against a script: one record per turn of the [while] loop, holding
    the outcome of every call the turn may make.  A run yields the list of
    the calls it made, in order, each with its outcome, and the way the
    process ends.  The interrupt is taken to arrive while a call runs.
    The two calls of the [finally] block, [tcsetattr] and [close], are
    taken to return. *)

Module Relay.
Import PyStr Detector Sys.

(** The names under which the source hands a descriptor to a call:
    [sys.stdin.fileno()], [sys.stdout.fileno()], [master_fd], [slave_fd]
    and the constants [PROMPT_FD] and [MIRROR_FD].  A name tells where in
    the source the call stands, not which file is behind it: the number
    each name has in a run is [fileno] below, and nothing keeps the
    numbers of two names apart. *)
Inductive fd := Stdin | Stdout | Master | Slave | PromptFd | MirrorFd.

Definition PROMPT_FD : nat := 3.
Definition MIRROR_FD : nat := 4.

(** [master_fd, slave_fd = pty.openpty()]: the two lowest numbers that
    were free, 3 and 4 when the caller passed no descriptor above 2. *)
Record pty_pair := { master_fd : nat; slave_fd : nat }.

Definition fileno (pty : pty_pair) (f : fd) : nat :=
  match f with
  | Stdin => 0
  | Stdout => 1
  | Master => master_fd pty
  | Slave => slave_fd pty
  | PromptFd => PROMPT_FD
  | MirrorFd => MIRROR_FD
  end.

Inductive event :=
| Select (r : result (bool * bool))
| Read (f : fd) (r : result bytes)
| Write (f : fd) (data : bytes) (r : result unit)
| Fstat (f : fd) (r : result unit)
| WritePrompt (p : prompt) (r : result unit)
| Poll (r : result (Z * Z))
| Kill (r : result unit)
| Wait (r : result (Z * Z))
| Setraw
| Tcsetattr
| Close (f : fd)
| Exit (code : Z).

(** The outcomes of one turn of the loop.  [sel] tells which of the
    controlling input and the master side [select] reported readable;
    [stdout_write] covers the write and the flush that follows it;
    [prompt_write] covers the record and the diagnostic line;
    [poll] is [os.waitpid(pid, os.WNOHANG)]. *)
Record iteration := {
  sel : result (bool * bool);
  stdin_read : result bytes;
  master_write : result unit;
  master_read : result bytes;
  stdout_write : result unit;
  mirror_fstat : result unit;
  mirror_write : result unit;
  prompt_fstat : result unit;
  prompt_write : result unit;
  poll : result (Z * Z)
}.

(** The outcomes of the calls of the [except KeyboardInterrupt] clause. *)
Record aftermath := {
  kill_result : result unit;
  wait_result : result (Z * Z)
}.

Inductive exn := Interrupt | Unhandled.

(** Where control goes after a statement of the loop body. *)
Inductive control := Next | Break | Raise (e : exn).

Record state := {
  output_buffer : str;
  exit_code : Z
}.

Definition step := state -> control * state * list event.

Definition ret (c : control) (evs : list event) : step :=
  fun st => (c, st, evs).

Definition seq (m1 m2 : step) : step :=
  fun st =>
    let '(c, st1, ev1) := m1 st in
    match c with
    | Next => let '(c2, st2, ev2) := m2 st1 in (c2, st2, ev1 ++ ev2)
    | _ => (c, st1, ev1)
    end.

Notation "m1 ;; m2" := (seq m1 m2) (at level 61, right associativity).

(** inside [try: ... except OSError: break] *)
Definition or_break {A} (r : result A) : control :=
  match r with
  | Ok _ => Next
  | OSError => Break
  | KeyboardInterrupt => Raise Interrupt
  end.

(** inside [try: ... except OSError: pass] *)
Definition or_pass {A} (r : result A) : control :=
  match r with
  | KeyboardInterrupt => Raise Interrupt
  | _ => Next
  end.

(** [output_buffer[-2048:]] when the buffer is longer than 2048 *)
Definition cap (buf : str) : str :=
  if (2048 <? length buf)%nat then skipn (length buf - 2048) buf else buf.

(** [os.WEXITSTATUS(result[1]) if os.WIFEXITED(result[1]) else 1] *)
Definition exit_code_of (status : Z) : Z :=
  if WIFEXITED status then WEXITSTATUS status else 1%Z.

Section WithDecoder.
Context {U : Unicode}.
(** [data.decode('utf-8', errors='replace')] *)
Variable decode : bytes -> str.

Definition relay_stdin (it : iteration) : step :=
  match stdin_read it with
  | Ok [] => ret Break [Read Stdin (Ok [])]
  | Ok data =>
      ret (or_break (master_write it))
          [Read Stdin (Ok data); Write Master data (master_write it)]
  | r => ret (or_break r) [Read Stdin r]
  end.

(** [has_mirror_fd()] and the write it guards *)
Definition mirror (it : iteration) (data : bytes) : step :=
  match mirror_fstat it with
  | Ok _ =>
      ret (or_pass (mirror_write it))
          [Fstat MirrorFd (mirror_fstat it);
           Write MirrorFd data (mirror_write it)]
  | r => ret (or_pass r) [Fstat MirrorFd r]
  end.

Definition send_prompt_to_fd (it : iteration) (p : prompt) : step :=
  match prompt_fstat it with
  | Ok _ =>
      ret (or_pass (prompt_write it))
          [Fstat PromptFd (prompt_fstat it); WritePrompt p (prompt_write it)]
  | r => ret (or_pass r) [Fstat PromptFd r]
  end.

Definition set_buffer (buf : str) : step :=
  fun st => (Next, {| output_buffer := buf; exit_code := exit_code st |}, []).

(** Buffering the output and looking for a prompt. *)
Definition feed (it : iteration) (data : bytes) : step :=
  fun st =>
    let buf := cap (output_buffer st ++ decode data) in
    (set_buffer buf ;;
     match detect_permission_prompt buf with
     | Some p => send_prompt_to_fd it p ;; set_buffer []
     | None => ret Next []
     end) st.

Definition relay_master (it : iteration) : step :=
  match master_read it with
  | Ok [] => ret Break [Read Master (Ok [])]
  | Ok data =>
      ret (or_break (stdout_write it))
          [Read Master (Ok data); Write Stdout data (stdout_write it)] ;;
      mirror it data ;;
      feed it data
  | r => ret (or_break r) [Read Master r]
  end.

Definition poll_child (it : iteration) : step :=
  fun st =>
    match poll it with
    | Ok (p, status) =>
        if (p =? 0)%Z then (Next, st, [Poll (poll it)])
        else
          (Break,
           {| output_buffer := output_buffer st;
              exit_code := exit_code_of status |},
           [Poll (poll it)])
    | OSError => (Raise Unhandled, st, [Poll (poll it)])
    | KeyboardInterrupt => (Raise Interrupt, st, [Poll (poll it)])
    end.

(** One turn of [while True]. *)
Definition body (it : iteration) : step :=
  match sel it with
  | Ok (stdin_ready, master_ready) =>
      ret Next [Select (sel it)] ;;
      (if stdin_ready then relay_stdin it else ret Next []) ;;
      (if master_ready then relay_master it else ret Next []) ;;
      poll_child it
  | OSError => ret Next [Select (sel it)]
  | KeyboardInterrupt => ret (Raise Interrupt) [Select (sel it)]
  end.

(** The loop over a script; [Next] at the end of the script: the loop is
    still running. *)
Fixpoint loop (script : list iteration) : step :=
  match script with
  | [] => ret Next []
  | it :: rest => body it ;; loop rest
  end.

Definition on_interrupt (h : aftermath) : control * list event :=
  match kill_result h with
  | Ok _ =>
      match wait_result h with
      | Ok _ => (Next, [Kill (kill_result h); Wait (wait_result h)])
      | _ => (Raise Unhandled, [Kill (kill_result h); Wait (wait_result h)])
      end
  | _ => (Raise Unhandled, [Kill (kill_result h)])
  end.

(** the [finally] block *)
Definition finally (stdin_is_tty : bool) : list event :=
  (if stdin_is_tty then [Tcsetattr] else []) ++ [Close Master].

Definition before_loop (stdin_is_tty : bool) : list event :=
  Close Slave :: (if stdin_is_tty then [Setraw] else []).

(** How the process ends: it has not yet, it called [sys.exit], or an
    exception no clause caught left [main]. *)
Inductive ending := Running | SysExit (code : Z) | Traceback.

Definition initial : state := {| output_buffer := []; exit_code := 0 |}.

(** What follows the loop: the [except KeyboardInterrupt] clause when the
    interrupt ended it, the [finally] block, and [sys.exit(exit_code)]
    unless an exception is on its way out of [main]. *)
Definition after_loop (stdin_is_tty : bool) (c : control) (st : state)
  (h : aftermath) : list event * ending :=
  match c with
  | Next => ([], Running)
  | Break =>
      (finally stdin_is_tty ++ [Exit (exit_code st)], SysExit (exit_code st))
  | Raise Interrupt =>
      match on_interrupt h with
      | (Next, ev) =>
          (ev ++ finally stdin_is_tty ++ [Exit (exit_code st)],
           SysExit (exit_code st))
      | (_, ev) => (ev ++ finally stdin_is_tty, Traceback)
      end
  | Raise Unhandled => (finally stdin_is_tty, Traceback)
  end.

Definition main (stdin_is_tty : bool) (script : list iteration)
  (h : aftermath) : list event * ending :=
  let '(c, st, ev) := loop script initial in
  let '(ev', e) := after_loop stdin_is_tty c st h in
  (before_loop stdin_is_tty ++ ev ++ ev', e).

End WithDecoder.

(** *** Reading a trace *)

Definition fd_eqb (a b : fd) : bool :=
  match a, b with
  | Stdin, Stdin | Stdout, Stdout | Master, Master | Slave, Slave
  | PromptFd, PromptFd | MirrorFd, MirrorFd => true
  | _, _ => false
  end.

(** the chunks read from [f]: the reads that returned data *)
Fixpoint chunks_read (f : fd) (tr : list event) : list bytes :=
  match tr with
  | Read g (Ok (b :: data)) :: tr' =>
      if fd_eqb f g then (b :: data) :: chunks_read f tr'
      else chunks_read f tr'
  | _ :: tr' => chunks_read f tr'
  | [] => []
  end.

(** the data of the writes made on [f] *)
Fixpoint chunks_written (f : fd) (tr : list event) : list bytes :=
  match tr with
  | Write g data _ :: tr' =>
      if fd_eqb f g then data :: chunks_written f tr'
      else chunks_written f tr'
  | _ :: tr' => chunks_written f tr'
  | [] => []
  end.

(** the chunks whose write on the primary output returned and after
    which the mirror channel was found *)
Fixpoint chunks_due_to_mirror (tr : list event) : list bytes :=
  match tr with
  | Write Stdout data (Ok _) :: tr' =>
      match tr' with
      | Fstat MirrorFd (Ok _) :: _ => data :: chunks_due_to_mirror tr'
      | _ => chunks_due_to_mirror tr'
      end
  | _ :: tr' => chunks_due_to_mirror tr'
  | [] => []
  end.

(** *** Reading a trace by descriptor numbers *)

(** What a write is handed: a chunk of the relay or the record of a
    prompt. *)
Inductive payload := Chunk (data : bytes) | RecordOf (p : prompt).

Definition read_by (pty : pty_pair) (n : nat) (e : event) : list bytes :=
  match e with
  | Read g (Ok (b :: data)) =>
      if (fileno pty g =? n)%nat then [b :: data] else []
  | _ => []
  end.

Definition handed_by (pty : pty_pair) (n : nat) (e : event) : list payload :=
  match e with
  | Write g data _ => if (fileno pty g =? n)%nat then [Chunk data] else []
  | WritePrompt p _ => if (PROMPT_FD =? n)%nat then [RecordOf p] else []
  | _ => []
  end.

Definition written_by (pty : pty_pair) (n : nat) (e : event) : list bytes :=
  match e with
  | Write g data (Ok _) => if (fileno pty g =? n)%nat then [data] else []
  | _ => []
  end.

(** the chunks read from the descriptor numbered [n]: the reads on it
    that returned data *)
Definition read_from (pty : pty_pair) (n : nat) (tr : list event)
  : list bytes :=
  flat_map (read_by pty n) tr.

(** what the writes on the descriptor numbered [n] were handed, in the
    order of the calls, whether they returned or raised *)
Definition handed_to (pty : pty_pair) (n : nat) (tr : list event)
  : list payload :=
  flat_map (handed_by pty n) tr.

(** the chunks of the relay written on the descriptor numbered [n]:
    those whose write returned *)
Definition written_to (pty : pty_pair) (n : nat) (tr : list event)
  : list bytes :=
  flat_map (written_by pty n) tr.

(** The names the source reads from and writes to. *)
Definition site_ok (e : event) : bool :=
  match e with
  | Read Stdin _ | Read Master _ => true
  | Read _ _ => false
  | Write Master _ _ | Write Stdout _ _ | Write MirrorFd _ _ => true
  | Write _ _ _ => false
  | _ => true
  end.

(** the statuses with which the poll of the loop saw the child gone *)
Fixpoint observed_exits (tr : list event) : list Z :=
  match tr with
  | Poll (Ok (p, status)) :: tr' =>
      if (p =? 0)%Z then observed_exits tr' else status :: observed_exits tr'
  | _ :: tr' => observed_exits tr'
  | [] => []
  end.

(** a read that met the end of its stream *)
Definition is_eof (e : event) : bool :=
  match e with Read _ (Ok []) => true | _ => false end.

(** the calls made from inside the loop *)
Definition in_loop (e : event) : bool :=
  match e with
  | Select _ | Read _ _ | Write _ _ _ | Fstat _ _ | WritePrompt _ _
  | Poll _ => true
  | _ => false
  end.

Definition outside_loop (e : event) : bool := negb (in_loop e).

Definition is_running (e : ending) : bool :=
  match e with Running => true | _ => false end.

Definition is_restore (e : event) : bool :=
  match e with Tcsetattr => true | _ => false end.

Definition is_close_master (e : event) : bool :=
  match e with Close Master => true | _ => false end.

Definition count (p : event -> bool) (tr : list event) : nat :=
  length (filter p tr).

(** What a stretch of the loop that starts in [st] and leaves in [st']
    with control [c] does, [ev] being the calls it made:
    it makes loop calls only; it writes what it read, each chunk once and
    in order; it keeps the buffer within 2048 characters; it leaves
    [exit_code] alone unless its poll saw the child gone, which breaks the
    loop. *)
Definition relayed (st : state) (c : control) (st' : state)
  (ev : list event) : Prop :=
  forallb in_loop ev = true
  /\ chunks_written Master ev = chunks_read Stdin ev
  /\ chunks_written Stdout ev = chunks_read Master ev
  /\ chunks_written MirrorFd ev = chunks_due_to_mirror ev
  /\ (forall tail,
        chunks_due_to_mirror (ev ++ tail)
        = chunks_due_to_mirror ev ++ chunks_due_to_mirror tail)
  /\ ((length (output_buffer st) <= 2048)%nat ->
      (length (output_buffer st') <= 2048)%nat)
  /\ match c with
     | Break =>
         (exit_code st' = exit_code st /\ observed_exits ev = [])
         \/ (exists status,
               observed_exits ev = [status]
               /\ exit_code st' = exit_code_of status
               /\ filter is_eof ev = [])
     | _ =>
         exit_code st' = exit_code st
         /\ observed_exits ev = [] /\ filter is_eof ev = []
     end.

Definition always (m : step) : Prop :=
  forall st c st' ev, m st = (c, st', ev) -> relayed st c st' ev.

End Relay.

(* ================================================================== *)
(** ** Concrete inputs *)

Module Examples.
Import PyStr Detector Sys Relay.

(** A prompt as the child draws it: bold question, coloured first option. *)
Definition drawn_prompt : str :=
  [ESC] ++ lit "[1mDo you want to proceed?" ++ [ESC] ++ lit "[0m" ++ [LF]
  ++ [ESC] ++ lit "[36m1. Yes" ++ [ESC] ++ lit "[0m" ++ [LF]
  ++ lit "2. No".

(** The same prompt with a cursor move before it and a window title
    set after it, piece by piece. *)
Definition drawn_pieces : list piece :=
  [ Csi (lit "2;1") 72%N; Csi (lit "1") 109%N;
    Plain (lit "Do you want to proceed?"); Csi (lit "0") 109%N; Plain [LF];
    Csi (lit "36") 109%N; Plain (lit "1. Yes"); Csi [] 109%N; Plain [LF];
    Plain (lit "2. No"); Osc (lit "0;confirm") ].

Definition proceed_event : prompt :=
  {| question := lit "Do you want to proceed?";
     options :=
       [ {| opt_id := 1; opt_label := lit "Yes"; requiresInput := false |};
         {| opt_id := 2; opt_label := lit "No"; requiresInput := false |} ] |}.

Definition three_options : str :=
  lit "1. Yes" ++ [LF] ++ lit "2. No" ++ [LF]
  ++ lit "3. Type a custom response".

Definition custom_option : option_entry :=
  {| opt_id := 3; opt_label := lit "Type a custom response";
     requiresInput := true |}.

(** Two options: the first is no request for text and spells the word
    type, the second asks for text and spells neither word. *)
Definition file_type_options : str :=
  lit "1. Yes, for this file type" ++ [LF] ++ lit "2. Enter a custom response".

Definition file_type_event : prompt :=
  {| question := lit "Permission required";
     options :=
       [ {| opt_id := 1; opt_label := lit "Yes, for this file type";
            requiresInput := true |};
         {| opt_id := 2; opt_label := lit "Enter a custom response";
            requiresInput := false |} ] |}.

(** A decoder for the examples: ASCII as it is, U+FFFD for the rest. *)
Definition decode_ascii (data : bytes) : str :=
  map (fun b => let c := Byte.to_N b in
                if is_ascii c then c else 65533%N) data.

(** A turn in which nothing is readable and the child is still there. *)
Definition idle : iteration :=
  {| sel := Ok (false, false);
     stdin_read := OSError; master_write := OSError;
     master_read := OSError; stdout_write := OSError;
     mirror_fstat := OSError; mirror_write := OSError;
     prompt_fstat := OSError; prompt_write := OSError;
     poll := Ok (0%Z, 0%Z) |}.

(** A key is typed and forwarded. *)
Definition keystroke : iteration :=
  {| sel := Ok (true, false);
     stdin_read := Ok [Byte.x79]; master_write := Ok tt;
     master_read := OSError; stdout_write := OSError;
     mirror_fstat := OSError; mirror_write := OSError;
     prompt_fstat := OSError; prompt_write := OSError;
     poll := Ok (0%Z, 0%Z) |}.

(** A key is typed and the write to the master side raises [OSError], as
    it does once the child is gone. *)
Definition keystroke_lost : iteration :=
  {| sel := Ok (true, false);
     stdin_read := Ok [Byte.x79]; master_write := OSError;
     master_read := OSError; stdout_write := OSError;
     mirror_fstat := OSError; mirror_write := OSError;
     prompt_fstat := OSError; prompt_write := OSError;
     poll := Ok (0%Z, 0%Z) |}.

(** The caller passed the descriptors 3 and 4: the pair comes next. *)
Definition pty_above : pty_pair := {| master_fd := 5; slave_fd := 6 |}.

(** The caller passed the descriptor 3 and not 4: the master side is
    numbered 4, as [MIRROR_FD] is. *)
Definition pty_on_mirror : pty_pair := {| master_fd := 4; slave_fd := 5 |}.

(** The caller passed no descriptor above 2: the master side is numbered
    3, as [PROMPT_FD] is, and the slave side, numbered 4, is closed before
    the loop. *)
Definition pty_on_prompt : pty_pair := {| master_fd := 3; slave_fd := 4 |}.

(** The child draws two options, [1. a] and [2. b] on two lines; the
    probe of the prompt channel finds a descriptor and the record is
    written. *)
Definition options_drawn : iteration :=
  {| sel := Ok (false, true);
     stdin_read := OSError; master_write := OSError;
     master_read :=
       Ok [Byte.x31; Byte.x2e; Byte.x20; Byte.x61; Byte.x0a;
           Byte.x32; Byte.x2e; Byte.x20; Byte.x62];
     stdout_write := Ok tt;
     mirror_fstat := OSError; mirror_write := OSError;
     prompt_fstat := Ok tt; prompt_write := Ok tt;
     poll := Ok (0%Z, 0%Z) |}.

Definition two_options_event : prompt :=
  {| question := lit "Permission required";
     options :=
       [ {| opt_id := 1; opt_label := lit "a"; requiresInput := false |};
         {| opt_id := 2; opt_label := lit "b"; requiresInput := false |} ] |}.

(** The child writes, the mirror channel is there. *)
Definition output (data : bytes) : iteration :=
  {| sel := Ok (false, true);
     stdin_read := OSError; master_write := OSError;
     master_read := Ok data; stdout_write := Ok tt;
     mirror_fstat := Ok tt; mirror_write := Ok tt;
     prompt_fstat := OSError; prompt_write := OSError;
     poll := Ok (0%Z, 0%Z) |}.

(** The child writes while the primary output is gone (a closed pipe);
    the mirror channel is there. *)
Definition output_lost : iteration :=
  {| sel := Ok (false, true);
     stdin_read := OSError; master_write := OSError;
     master_read := Ok [Byte.x41]; stdout_write := OSError;
     mirror_fstat := Ok tt; mirror_write := Ok tt;
     prompt_fstat := OSError; prompt_write := OSError;
     poll := Ok (0%Z, 0%Z) |}.

(** The child writes and the write to the mirror channel, which is
    there, raises [OSError]. *)
Definition mirror_fails : iteration :=
  {| sel := Ok (false, true);
     stdin_read := OSError; master_write := OSError;
     master_read := Ok [Byte.x41]; stdout_write := Ok tt;
     mirror_fstat := Ok tt; mirror_write := OSError;
     prompt_fstat := OSError; prompt_write := OSError;
     poll := Ok (0%Z, 0%Z) |}.

(** The poll finds the child gone, with this status word. *)
Definition child_gone (status : Z) : iteration :=
  {| sel := Ok (false, false);
     stdin_read := OSError; master_write := OSError;
     master_read := OSError; stdout_write := OSError;
     mirror_fstat := OSError; mirror_write := OSError;
     prompt_fstat := OSError; prompt_write := OSError;
     poll := Ok (4242%Z, status) |}.

(** The controlling input is at its end. *)
Definition input_closed : iteration :=
  {| sel := Ok (true, false);
     stdin_read := Ok []; master_write := OSError;
     master_read := OSError; stdout_write := OSError;
     mirror_fstat := OSError; mirror_write := OSError;
     prompt_fstat := OSError; prompt_write := OSError;
     poll := Ok (4242%Z, 768%Z) |}.

(** The interrupt arrives while the loop waits in [select]. *)
Definition interrupted : iteration :=
  {| sel := KeyboardInterrupt;
     stdin_read := OSError; master_write := OSError;
     master_read := OSError; stdout_write := OSError;
     mirror_fstat := OSError; mirror_write := OSError;
     prompt_fstat := OSError; prompt_write := OSError;
     poll := Ok (0%Z, 0%Z) |}.

(** The child, interrupted in turn, leaves with status 3. *)
Definition child_collected : aftermath :=
  {| kill_result := Ok tt; wait_result := Ok (4242%Z, 768%Z) |}.

End Examples.

From Stdlib Require DecimalPos DecimalN.

(* ================================================================== *)
(** ** Text as lines *)

Module Lines.
Import PyStr.

(** [s] is [t] with some characters left out. *)
Inductive subseq {A : Type} : list A -> list A -> Prop :=
| subseq_nil : subseq [] []
| subseq_keep (a : A) (s t : list A) : subseq s t -> subseq (a :: s) (a :: t)
| subseq_drop (a : A) (s t : list A) : subseq s t -> subseq s (a :: t).

(** ['\n'.join(lines)] *)
Fixpoint join_nl (lines : list str) : str :=
  match lines with
  | [] => []
  | [l] => l
  | l :: ls => l ++ LF :: join_nl ls
  end.

Definition no_LF (s : str) : bool := forallb (fun c => negb (N.eqb c LF)) s.

(** the test of the question line, on a line as [split] gives it *)
Definition asks {U : Unicode} (raw : str) : bool :=
  Detector.is_question (strip raw).

End Lines.

(* ================================================================== *)
(** ** Properties of stretches of the loop *)

Module Turns.
Import PyStr Detector Sys Relay.

(** [P] holds of every run of the step [m]. *)
Definition holds (P : state -> control -> state -> list event -> Prop)
  (m : step) : Prop :=
  forall st c st' ev, m st = (c, st', ev) -> P st c st' ev.

(** [P] passes from two stretches run one after the other to the whole. *)
Definition composes (P : state -> control -> state -> list event -> Prop)
  : Prop :=
  forall st st1 st2 c ev1 ev2,
    P st Next st1 ev1 -> P st1 c st2 ev2 -> P st c st2 (ev1 ++ ev2).

(** a read or a write of the relay proper that raised [OSError] *)
Definition is_primary_failure (e : event) : bool :=
  match e with
  | Read Stdin OSError | Read Master OSError
  | Write Master _ OSError | Write Stdout _ OSError => true
  | _ => false
  end.

(** a prompt record with two options or more and a question *)
Definition prompt_ok (e : event) : bool :=
  match e with
  | WritePrompt p _ =>
      (2 <=? length (options p))%nat
      && match question p with [] => false | _ :: _ => true end
  | _ => true
  end.

(** a call on one of the two optional channels *)
Definition is_side (e : event) : bool :=
  match e with
  | Fstat _ _ | WritePrompt _ _ | Write MirrorFd _ _ | Write PromptFd _ _ =>
      true
  | _ => false
  end.

(** the calls of the relay proper *)
Definition primary (tr : list event) : list event :=
  filter (fun e => negb (is_side e)) tr.

Definition returns {A : Type} (r : result A) : bool :=
  match r with KeyboardInterrupt => false | _ => true end.

(** Two turns that differ, if at all, in what the optional channels
    answer, no interrupt arriving on them. *)
Definition same_but_side (a b : iteration) : Prop :=
  sel a = sel b /\ stdin_read a = stdin_read b
  /\ master_write a = master_write b /\ master_read a = master_read b
  /\ stdout_write a = stdout_write b /\ poll a = poll b
  /\ returns (mirror_fstat a) = true /\ returns (mirror_write a) = true
  /\ returns (prompt_fstat a) = true /\ returns (prompt_write a) = true
  /\ returns (mirror_fstat b) = true /\ returns (mirror_write b) = true
  /\ returns (prompt_fstat b) = true /\ returns (prompt_write b) = true.

(** a call about the child made from the [except] clause *)
Definition is_child_call (e : event) : bool :=
  match e with Kill _ | Wait _ => true | _ => false end.

(** A call after which the loop does not go on: a read that met the end
    of its stream, a read or a write of the relay proper that raised
    [OSError], a poll that saw the child gone or raised, any call on
    which the interrupt arrived. *)
Definition ends_loop (e : event) : bool :=
  match e with
  | Read _ (Ok []) | Read _ OSError | Read _ KeyboardInterrupt => true
  | Write Master _ OSError | Write Stdout _ OSError => true
  | Write _ _ KeyboardInterrupt => true
  | Fstat _ KeyboardInterrupt | WritePrompt _ KeyboardInterrupt => true
  | Select KeyboardInterrupt => true
  | Poll (Ok (p, _)) => negb (p =? 0)%Z
  | Poll _ => true
  | _ => false
  end.

(** No call but the last of a stretch ends the loop, and none at all
    when the stretch goes on. *)
Definition stops_at_once (st : state) (c : control) (st' : state)
  (ev : list event) : Prop :=
  existsb ends_loop (removelast ev) = false
  /\ (c = Next -> existsb ends_loop ev = false).

(** A stretch that does not go on has made a call that ends the loop. *)
Definition ended_by_call (st : state) (c : control) (st' : state)
  (ev : list event) : Prop :=
  c <> Next -> existsb ends_loop ev = true.

(** A stretch reads and writes under the names the source reads from and
    writes to. *)
Definition on_sites (st : state) (c : control) (st' : state)
  (ev : list event) : Prop :=
  forallb site_ok ev = true.

(** Two runs of a step end alike: same control, same state, same calls
    of the relay proper. *)
Definition agree (r1 r2 : control * state * list event) : Prop :=
  fst (fst r1) = fst (fst r2) /\ snd (fst r1) = snd (fst r2)
  /\ primary (snd r1) = primary (snd r2).

Section WithUnicode.
Context {U : Unicode}.

(** What the loop keeps besides relaying: a failed read or write of the
    relay proper breaks the loop before any poll saw the child gone; the
    prompt records it writes are well formed; and it leaves no prompt
    undetected in the buffer unless the interrupt cut it short. *)
Definition kept (st : state) (c : control) (st' : state) (ev : list event)
  : Prop :=
  (existsb is_primary_failure ev = true ->
   c = Break /\ observed_exits ev = [])
  /\ (c = Next ->
      existsb is_primary_failure ev = false /\ observed_exits ev = [])
  /\ forallb prompt_ok ev = true
  /\ (detect_permission_prompt (output_buffer st) = None ->
      c <> Raise Interrupt ->
      detect_permission_prompt (output_buffer st') = None).

End WithUnicode.

(** An example: the mirror channel is not there and the prompt channel
    is. *)
Definition output_unmirrored (data : bytes) : iteration :=
  {| sel := Ok (false, true);
     stdin_read := OSError; master_write := OSError;
     master_read := Ok data; stdout_write := Ok tt;
     mirror_fstat := OSError; mirror_write := Ok tt;
     prompt_fstat := Ok tt; prompt_write := OSError;
     poll := Ok (0%Z, 0%Z) |}.

(** The master side gives [OSError], as it does once the child has
    closed the slave side; the child had left with status 3. *)
Definition master_gone : iteration :=
  {| sel := Ok (false, true);
     stdin_read := OSError; master_write := OSError;
     master_read := OSError; stdout_write := OSError;
     mirror_fstat := OSError; mirror_write := OSError;
     prompt_fstat := OSError; prompt_write := OSError;
     poll := Ok (4242%Z, 768%Z) |}.

(** [select] raises [OSError]. *)
Definition select_fails : iteration :=
  {| sel := OSError;
     stdin_read := OSError; master_write := OSError;
     master_read := OSError; stdout_write := OSError;
     mirror_fstat := OSError; mirror_write := OSError;
     prompt_fstat := OSError; prompt_write := OSError;
     poll := Ok (4242%Z, 768%Z) |}.

End Turns.

(* ================================================================== *)
(** ** The prompt record

    [json.dumps(prompt_data) + '\n'] as [send_prompt_to_fd] writes it:
    the encoder's defaults, that is keys in the order of the dictionary,
    [", "] and [": "] between items, and every character outside the
    printable ASCII range escaped. *)

Module Record.
Import PyStr Detector.

Local Open Scope N_scope.

Definition hex_digit (n : N) : char := if n <? 10 then 48 + n else 87 + n.

(** four lower-case hexadecimal digits *)
Definition hex4 (n : N) : str :=
  [hex_digit (n / 4096 mod 16); hex_digit (n / 256 mod 16);
   hex_digit (n / 16 mod 16); hex_digit (n mod 16)].

(** [\uXXXX] *)
Definition u_escape (n : N) : str := 92 :: 117 :: hex4 n.

Definition printable (c : char) : bool := in_range 32 126 c.

(** One character of a string: the short escapes, the character itself
    when it is printable ASCII, [\uXXXX] otherwise, as a surrogate pair
    above U+FFFF. *)
Definition escape_char (c : char) : str :=
  if c =? 34 then [92; 34]
  else if c =? 92 then [92; 92]
  else if c =? 10 then [92; 110]
  else if c =? 13 then [92; 114]
  else if c =? 9 then [92; 116]
  else if c =? 8 then [92; 98]
  else if c =? 12 then [92; 102]
  else if printable c then [c]
  else if c <? 65536 then u_escape c
  else
    let v := c - 65536 in
    u_escape (55296 + v / 1024 mod 1024) ++ u_escape (56320 + v mod 1024).

Definition dumps_str (s : str) : str := 34 :: flat_map escape_char s ++ [34].

Fixpoint digits (u : Decimal.uint) : str :=
  match u with
  | Decimal.Nil => []
  | Decimal.D0 u => 48 :: digits u
  | Decimal.D1 u => 49 :: digits u
  | Decimal.D2 u => 50 :: digits u
  | Decimal.D3 u => 51 :: digits u
  | Decimal.D4 u => 52 :: digits u
  | Decimal.D5 u => 53 :: digits u
  | Decimal.D6 u => 54 :: digits u
  | Decimal.D7 u => 55 :: digits u
  | Decimal.D8 u => 56 :: digits u
  | Decimal.D9 u => 57 :: digits u
  end.

Definition dumps_int (n : N) : str := digits (N.to_uint n).

Definition dumps_bool (b : bool) : str :=
  if b then lit "true" else lit "false".

(** a key, quoted, and the [": "] after it *)
Definition key (name : string) : str := 34 :: lit name ++ [34; 58; 32].

Definition comma : str := [44; 32].

Definition dumps_option (o : option_entry) : str :=
  123 :: key "id" ++ dumps_int (opt_id o) ++ comma
  ++ key "label" ++ dumps_str (opt_label o) ++ comma
  ++ key "requiresInput" ++ dumps_bool (requiresInput o) ++ [125].

Fixpoint sep_by (sep : str) (items : list str) : str :=
  match items with
  | [] => []
  | [x] => x
  | x :: xs => x ++ sep ++ sep_by sep xs
  end.

Definition dumps_prompt (p : prompt) : str :=
  123 :: key "type" ++ dumps_str (lit "permission_prompt") ++ comma
  ++ key "question" ++ dumps_str (question p) ++ comma
  ++ key "options"
  ++ 91 :: sep_by comma (map dumps_option (options p)) ++ [93; 125].

(** [json_line] of [send_prompt_to_fd] *)
Definition json_line (p : prompt) : str := dumps_prompt p ++ [LF].

End Record.

(* ================================================================== *)
(** ** The child's descriptors and the simple wrapper *)

Module Startup.
Import PyStr Sys.

Section Descriptors.
(** what a descriptor refers to *)
Variable file : Type.

(** the descriptor table of a process *)
Definition table := nat -> option file.

Definition upd (t : table) (fd : nat) (f : option file) : table :=
  fun k => if Nat.eqb k fd then f else t k.

(** [os.close(fd)]; [None]: [OSError], the descriptor is not open *)
Definition close (fd : nat) (t : table) : option table :=
  match t fd with
  | Some _ => Some (upd t fd None)
  | None => None
  end.

(** [os.dup2(fd, fd2)] *)
Definition dup2 (fd fd2 : nat) (t : table) : option table :=
  match t fd with
  | Some f => Some (if Nat.eqb fd fd2 then t else upd t fd2 (Some f))
  | None => None
  end.

Definition and_then (r : option table) (k : table -> option table)
  : option table :=
  match r with
  | Some t => k t
  | None => None
  end.

(** What the child does to its descriptors between the fork and
    [execvp]; [setsid] and the [TIOCSCTTY] call leave them alone. *)
Definition child_descriptors (master_fd slave_fd : nat) (t : table)
  : option table :=
  and_then (close master_fd t) (fun t =>
  and_then (dup2 slave_fd 0 t) (fun t =>
  and_then (dup2 slave_fd 1 t) (fun t =>
  and_then (dup2 slave_fd 2 t) (fun t =>
  if (2 <? slave_fd)%nat then close slave_fd t else Some t)))).

End Descriptors.

(** [pty-wrapper-simple.py] *)
Inductive act :=
| Usage
| Spawn (cmd : list str)
| SysExitWith (status : Z).

(** [spawn] is [pty.spawn], which returns the status word of [waitpid]. *)
Definition simple_wrapper (argv : list str) (spawn : list str -> Z)
  : list act :=
  if (length argv <? 2)%nat then [Usage; SysExitWith 1]
  else [Spawn (tl argv); SysExitWith (spawn (tl argv))].

(** The exit status the system reports for [sys.exit(n)]: the low eight
    bits of [n]. *)
Definition reported (n : Z) : Z := (n mod 256)%Z.

End Startup.

(* ================================================================== *)
(** ** Facts about the detector *)

Module DetectorFacts.
Import PyStr Regex Detector.

Section Scan.
Context {U : Unicode}.

Lemma scan_options (lines : list str) :
  forall acc,
    snd (fold_left scan_line lines acc) = snd acc ++ flat_map line_options lines.
Proof.
  induction lines as [|raw lines IH]; intros acc; simpl.
  - now rewrite app_nil_r.
  - rewrite IH. unfold scan_line, line_options; simpl.
    destruct (option_pattern (strip raw)); simpl.
    + now rewrite <- app_assoc.
    + reflexivity.
Qed.

Lemma line_options_length (raw : str) :
  length (line_options raw) = if is_option_line raw then 1%nat else 0%nat.
Proof.
  unfold line_options, is_option_line.
  now destruct (option_pattern (strip raw)).
Qed.

Lemma options_count (lines : list str) :
  length (flat_map line_options lines) = length (filter is_option_line lines).
Proof.
  induction lines as [|raw lines IH]; simpl; [reflexivity|].
  rewrite length_app, line_options_length, IH.
  now destruct (is_option_line raw).
Qed.

Lemma no_options (lines : list str) :
  (forall l, In l lines -> is_option_line l = false) ->
  flat_map line_options lines = [].
Proof.
  induction lines as [|raw lines IH]; intros H; simpl; [reflexivity|].
  rewrite IH by (intros; apply H; now right).
  assert (E : is_option_line raw = false) by (apply H; now left).
  unfold is_option_line in E. unfold line_options.
  now destruct (option_pattern (strip raw)).
Qed.

Lemma scan_question_kept (lines : list str) :
  (forall l, In l lines -> is_question (strip l) = false) ->
  forall acc, fst (fold_left scan_line lines acc) = fst acc.
Proof.
  induction lines as [|raw lines IH]; intros H acc; simpl; [reflexivity|].
  rewrite IH by (intros; apply H; now right).
  unfold scan_line; simpl. now rewrite (H raw) by now left.
Qed.

Lemma fold_scan_app (xs ys : list str) acc :
  fold_left scan_line (xs ++ ys) acc =
  fold_left scan_line ys (fold_left scan_line xs acc).
Proof. apply fold_left_app. Qed.

Lemma detected_options (text : str) (p : prompt) :
  detect_permission_prompt text = Some p ->
  options p = flat_map line_options (split_nl (strip_ansi text)).
Proof.
  unfold detect_permission_prompt.
  destruct (2 <=? length (snd (fold_left scan_line
                                 (split_nl (strip_ansi text)) (None, []))))%nat;
    [|discriminate].
  intros [= <-]. simpl. now rewrite scan_options.
Qed.

Lemma made_option_flag (o : option_entry) (lines : list str) :
  In o (flat_map line_options lines) ->
  requiresInput o =
  mentions "type" (opt_label o) || mentions "tell" (opt_label o).
Proof.
  rewrite in_flat_map. intros (raw & _ & Ho).
  unfold line_options in Ho.
  destruct (option_pattern (strip raw)) as [g|]; [|contradiction].
  destruct Ho as [<-|[]]. reflexivity.
Qed.

End Scan.

(** *** The database matters on non-ASCII text only *)

Local Abbreviation Ascii := (Forall (fun c : char => is_ascii c = true)).

Lemma Ascii_forallb (s : str) : forallb is_ascii s = true <-> Ascii s.
Proof. rewrite forallb_forall, Forall_forall. reflexivity. Qed.

Lemma Ascii_lstrip (s : str) : Ascii s -> Ascii (lstrip s).
Proof.
  induction 1 as [|c s Hc Hs IH]; simpl; [constructor|].
  destruct (isspace c); [assumption|now constructor].
Qed.

Lemma Ascii_strip (s : str) : Ascii s -> Ascii (strip s).
Proof.
  intros H. unfold strip, rstrip.
  apply Forall_rev, Ascii_lstrip, Forall_rev, Ascii_lstrip, H.
Qed.

Section Pieces.
Variable R : Type.

Lemma star_ext (cls cls' : char -> bool) (k k' : str -> str -> option R) :
  (forall c, is_ascii c = true -> cls c = cls' c) ->
  (forall a r, Ascii a -> Ascii r -> k a r = k' a r) ->
  forall s acc, Ascii s -> Ascii acc ->
    star cls acc k s = star cls' acc k' s.
Proof.
  intros Hc Hk s. induction s as [|c s IH]; intros acc Hs Ha; simpl.
  - apply Hk; [assumption|constructor].
  - inversion Hs as [|? ? H1 H2]; subst.
    rewrite <- (Hc c H1), (Hk acc (c :: s) Ha Hs).
    destruct (cls c); [|reflexivity].
    rewrite IH; [reflexivity|assumption|].
    apply Forall_app; split; [assumption|now constructor].
Qed.

Lemma plus_ext (cls cls' : char -> bool) (k k' : str -> str -> option R) :
  (forall c, is_ascii c = true -> cls c = cls' c) ->
  (forall a r, Ascii a -> Ascii r -> k a r = k' a r) ->
  forall s, Ascii s -> plus cls k s = plus cls' k' s.
Proof.
  intros Hc Hk [|c s] Hs; simpl; [reflexivity|].
  inversion Hs as [|? ? H1 H2]; subst.
  rewrite <- (Hc c H1). destruct (cls c); [|reflexivity].
  apply star_ext; auto.
Qed.

Variable Q : R -> Prop.

Lemma star_inv (cls : char -> bool) (k : str -> str -> option R) :
  (forall a r res, Ascii a -> Ascii r -> k a r = Some res -> Q res) ->
  forall s acc res, Ascii s -> Ascii acc ->
    star cls acc k s = Some res -> Q res.
Proof.
  intros Hk s. induction s as [|c s IH]; intros acc res Hs Ha; simpl.
  - apply Hk; [assumption|constructor].
  - inversion Hs as [|? ? H1 H2]; subst.
    destruct (cls c); [|now apply Hk].
    destruct (star cls (acc ++ [c]) k s) as [r|] eqn:E.
    + intros [= <-]. apply (IH (acc ++ [c])); auto.
      apply Forall_app; split; [assumption|now constructor].
    + now apply Hk.
Qed.

Lemma plus_inv (cls : char -> bool) (k : str -> str -> option R) :
  (forall a r res, Ascii a -> Ascii r -> k a r = Some res -> Q res) ->
  forall s res, Ascii s -> plus cls k s = Some res -> Q res.
Proof.
  intros Hk [|c s] res Hs; simpl; [discriminate|].
  inversion Hs as [|? ? H1 H2]; subst.
  destruct (cls c); [|discriminate].
  apply star_inv; auto.
Qed.

Lemma chr_inv (a : char) (k : str -> option R) :
  (forall r res, Ascii r -> k r = Some res -> Q res) ->
  forall s res, Ascii s -> chr a k s = Some res -> Q res.
Proof.
  intros Hk [|c s] res Hs; simpl; [discriminate|].
  inversion Hs; subst. destruct (N.eqb c a); [|discriminate].
  now apply Hk.
Qed.

End Pieces.

Section Agreement.
Variables U V : Unicode.

Lemma lower_agree (s : str) : Ascii s -> @lower U s = @lower V s.
Proof.
  intros H. apply Ascii_forallb in H. now rewrite !lower_ascii.
Qed.

Lemma isdecimal_agree (c : char) :
  is_ascii c = true -> @isdecimal U c = @isdecimal V c.
Proof. intros H. unfold isdecimal. now rewrite !todecimal_ascii. Qed.

Lemma int_of_agree (ds : str) : Ascii ds -> @int_of U ds = @int_of V ds.
Proof.
  unfold int_of. generalize 0%N.
  induction ds as [|c ds IH]; intros n H; simpl; [reflexivity|].
  inversion H as [|? ? H1 H2]; subst.
  replace (@digit_value U c) with (@digit_value V c)
    by (unfold digit_value; now rewrite !todecimal_ascii).
  now apply IH.
Qed.

Lemma mentions_agree (w : string) (s : str) :
  Ascii s -> @mentions U w s = @mentions V w s.
Proof. intros H. unfold mentions. now rewrite (lower_agree H). Qed.

Lemma is_question_agree (line : str) :
  Ascii line -> @is_question U line = @is_question V line.
Proof.
  intros H. unfold is_question. now rewrite !(mentions_agree _ H).
Qed.

Lemma option_pattern_agree (line : str) :
  Ascii line -> @option_pattern U line = @option_pattern V line.
Proof.
  intros H. unfold option_pattern.
  apply star_ext; [reflexivity| |assumption|constructor].
  intros _ r _ Hr.
  apply plus_ext; [intros; now apply isdecimal_agree|reflexivity|assumption].
Qed.

Lemma option_pattern_groups (line : str) (g : str * str) :
  Ascii line -> @option_pattern U line = Some g ->
  Ascii (fst g) /\ Ascii (snd g).
Proof.
  intros H. unfold option_pattern.
  pose (Good := fun g : str * str => Ascii (fst g) /\ Ascii (snd g)).
  change (Ascii (fst g) /\ Ascii (snd g)) with (Good g).
  apply (@star_inv _ Good); [|assumption|constructor].
  intros _ r res _ Hr. apply (@plus_inv _ Good); [|assumption].
  clear res. intros digits r1 res Hd Hr1.
  apply (@chr_inv _ Good); [|assumption].
  clear res. intros r2 res Hr2. apply (@plus_inv _ Good); [|assumption].
  clear res. intros _ r3 res _ Hr3. apply (@plus_inv _ Good); [|assumption].
  clear res. intros label r4 res Hl Hr4.
  destruct (at_end r4); [|discriminate].
  intros [= <-]. now split.
Qed.

Lemma make_option_agree (g : str * str) :
  Ascii (fst g) -> Ascii (snd g) -> @make_option U g = @make_option V g.
Proof.
  intros Hd Hl. unfold make_option.
  rewrite (int_of_agree Hd), !(mentions_agree _ (Ascii_strip Hl)).
  reflexivity.
Qed.

Lemma line_options_agree (raw : str) :
  forallb is_ascii raw = true -> @line_options U raw = @line_options V raw.
Proof.
  intros H. apply Ascii_forallb, Ascii_strip in H. unfold line_options.
  rewrite <- (option_pattern_agree H).
  destruct (@option_pattern U (strip raw)) as [g|] eqn:E; [|reflexivity].
  destruct (option_pattern_groups H E) as [Hd Hl].
  now rewrite (make_option_agree _ Hd Hl).
Qed.

Lemma is_question_strip_agree (raw : str) :
  forallb is_ascii raw = true ->
  @is_question U (strip raw) = @is_question V (strip raw).
Proof.
  intros H. apply is_question_agree, Ascii_strip, Ascii_forallb, H.
Qed.

End Agreement.

(** *** What [strip_ansi] removes *)

Unset Implicit Arguments.
Local Open Scope N_scope.

Ltac chars :=
  unfold is_not, is_letter, is_param, is_string_intro, dot, in_range,
    ESC, BEL, LF in *;
  repeat match goal with
    | H : _ && _ = true |- _ => apply andb_true_iff in H; destruct H
    | H : _ || _ = true |- _ => apply orb_true_iff in H; destruct H
    | H : negb _ = true |- _ => apply negb_true_iff in H
    | H : N.eqb _ _ = true |- _ => apply N.eqb_eq in H
    | H : N.eqb _ _ = false |- _ => apply N.eqb_neq in H
    | H : N.leb _ _ = true |- _ => apply N.leb_le in H
    end.

Lemma letter_not_param (c : char) : is_letter c = true -> is_param c = false.
Proof.
  intros H. destruct (is_param c) eqn:E; [|reflexivity].
  chars; lia.
Qed.

Lemma ansi_pattern_plain (c : char) (s : str) :
  is_not ESC c = true -> ansi_pattern (c :: s) = None.
Proof.
  intros H. chars. apply N.eqb_neq in H.
  unfold ansi_pattern, alt, csi, osc, dcs, chr, ESC. now rewrite !H.
Qed.

Lemma sub_empty_plain (p rest : str) :
  forallb (is_not ESC) p = true ->
  sub_empty 0 (p ++ rest) = p ++ sub_empty 0 rest.
Proof.
  induction p as [|c p IH]; intros H; [reflexivity|].
  simpl in H. apply andb_true_iff in H. destruct H as [Hc Hp].
  change ((c :: p) ++ rest) with (c :: p ++ rest).
  cbn [sub_empty]. rewrite (ansi_pattern_plain _ _ Hc), IH by assumption.
  reflexivity.
Qed.

Lemma sub_empty_skip (a rest : str) :
  sub_empty (length a) (a ++ rest) = sub_empty 0 rest.
Proof. induction a as [|c a IH]; [reflexivity|exact IH]. Qed.

(** a match at the head of the text is dropped whole *)
Lemma sub_empty_match (c : char) (e rest : str) :
  ansi_pattern (c :: e ++ rest) = Some rest ->
  sub_empty 0 ((c :: e) ++ rest) = sub_empty 0 rest.
Proof.
  intros H. change ((c :: e) ++ rest) with (c :: e ++ rest).
  cbn [sub_empty]. rewrite H, length_app.
  replace (length e + length rest - length rest)%nat with (length e) by lia.
  apply sub_empty_skip.
Qed.

Lemma star_greedy (R : Type) (cls : char -> bool)
  (k : str -> str -> option R) (p s : str) (r : R) :
  forallb cls p = true ->
  forall acc, star cls (acc ++ p) k s = Some r ->
              star cls acc k (p ++ s) = Some r.
Proof.
  induction p as [|c p IH]; intros H acc E.
  - now rewrite app_nil_r in E.
  - simpl in H. apply andb_true_iff in H. destruct H as [Hc Hp].
    simpl. rewrite Hc, (IH Hp (acc ++ [c])); [reflexivity|].
    now rewrite <- app_assoc.
Qed.

Lemma lazy_star_first (R : Type) (cls : char -> bool)
  (k : str -> option R) (body s : str) :
  forallb (fun c => cls c) body = true ->
  (forall c t, In c body -> k (c :: t) = None) ->
  lazy_star cls k (body ++ s) = lazy_star cls k s.
Proof.
  induction body as [|c body IH]; intros H Hk; [reflexivity|].
  simpl in H. apply andb_true_iff in H. destruct H as [Hc Hb].
  change ((c :: body) ++ s) with (c :: body ++ s).
  cbn [lazy_star]. rewrite (Hk c (body ++ s)) by now left.
  rewrite Hc. apply IH; [assumption|].
  intros; apply Hk; now right.
Qed.

Lemma csi_match (params : str) (final : char) (rest : str) :
  forallb is_param params = true -> is_letter final = true ->
  ansi_pattern (render (Csi params final) ++ rest) = Some rest.
Proof.
  intros Hp Hf. unfold ansi_pattern, alt, csi. simpl.
  rewrite <- app_assoc.
  rewrite (star_greedy _ _ _ _ _ rest Hp); [reflexivity|].
  simpl. now rewrite (letter_not_param _ Hf), Hf.
Qed.

Lemma osc_match (body rest : str) :
  forallb (fun c => is_not LF c && is_not BEL c) body = true ->
  ansi_pattern (render (Osc body) ++ rest) = Some rest.
Proof.
  intros Hb. unfold ansi_pattern, alt, csi, osc. simpl.
  rewrite <- app_assoc, lazy_star_first.
  - simpl. reflexivity.
  - rewrite forallb_forall in *. intros c Hc.
    specialize (Hb c Hc). apply andb_true_iff in Hb. now destruct Hb.
  - rewrite forallb_forall in Hb. intros c t Hc.
    specialize (Hb c Hc). apply andb_true_iff in Hb. destruct Hb as [_ Hb].
    unfold is_not in Hb. apply negb_true_iff in Hb.
    unfold chr. now rewrite Hb.
Qed.

Lemma dcs_match (intro : char) (body rest : str) :
  is_string_intro intro = true ->
  forallb (fun c => is_not LF c && is_not ESC c) body = true ->
  ansi_pattern (render (Dcs intro body) ++ rest) = Some rest.
Proof.
  intros Hi Hb.
  assert (E : ansi_pattern (render (Dcs intro body) ++ rest)
              = lazy_star dot (chr ESC (chr 92 (@Some str)))
                  (body ++ [ESC; 92%N] ++ rest)).
  { unfold ansi_pattern, alt, csi, osc, dcs. simpl.
    rewrite <- app_assoc.
    unfold is_string_intro in Hi.
    repeat (apply orb_true_iff in Hi; destruct Hi as [Hi|Hi]);
      apply N.eqb_eq in Hi; subst intro; reflexivity. }
  rewrite E, lazy_star_first.
  - reflexivity.
  - rewrite forallb_forall in *. intros c Hc.
    specialize (Hb c Hc). apply andb_true_iff in Hb. now destruct Hb.
  - rewrite forallb_forall in Hb. intros c t Hc.
    specialize (Hb c Hc). apply andb_true_iff in Hb. destruct Hb as [_ Hb].
    unfold is_not in Hb. apply negb_true_iff in Hb.
    unfold chr. now rewrite Hb.
Qed.

Lemma render_match (p : piece) (rest : str) :
  well_formed p = true ->
  sub_empty 0 (render p ++ rest) = plain_of p ++ sub_empty 0 rest.
Proof.
  destruct p as [s|params final|body|intro body]; simpl well_formed; intros H.
  - now apply sub_empty_plain.
  - apply andb_true_iff in H. destruct H as [Hp Hf].
    apply (sub_empty_match ESC (91%N :: params ++ [final])).
    exact (csi_match _ _ rest Hp Hf).
  - apply (sub_empty_match ESC (93%N :: body ++ [BEL])).
    exact (osc_match _ rest H).
  - apply andb_true_iff in H. destruct H as [Hi Hb].
    apply (sub_empty_match ESC (intro :: body ++ [ESC; 92%N])).
    exact (dcs_match _ _ rest Hi Hb).
Qed.

Lemma strip_ansi_render (ps : list piece) :
  forallb well_formed ps = true -> strip_ansi (render_all ps) = plain_text ps.
Proof.
  unfold strip_ansi, render_all, plain_text.
  induction ps as [|p ps IH]; intros H; [reflexivity|].
  simpl in H. apply andb_true_iff in H. destruct H as [Hp Hps].
  simpl. rewrite (render_match _ _ Hp), IH by assumption. reflexivity.
Qed.

Lemma plain_no_esc (s : str) :
  forallb (is_not ESC) s = true -> existsb (N.eqb ESC) s = false.
Proof.
  induction s as [|c s IH]; intros H; [reflexivity|].
  simpl in H. apply andb_true_iff in H. destruct H as [Hc Hs].
  cbn [existsb]. rewrite (IH Hs), orb_false_r.
  unfold is_not in Hc. apply negb_true_iff in Hc.
  now rewrite N.eqb_sym.
Qed.

Lemma plain_text_no_esc (ps : list piece) :
  forallb well_formed ps = true -> existsb (N.eqb ESC) (plain_text ps) = false.
Proof.
  unfold plain_text.
  induction ps as [|p ps IH]; intros H; [reflexivity|].
  cbn [forallb] in H. apply andb_true_iff in H. destruct H as [Hp Hps].
  cbn [flat_map]. rewrite existsb_app.
  apply orb_false_iff; split; [|exact (IH Hps)].
  destruct p; try reflexivity. now apply plain_no_esc.
Qed.

(** *** The three lines of the confirmation prompt *)

Section Lines.
Context {U : Unicode}.

Ltac on_ascii :=
  first [ rewrite (line_options_agree U ascii_unicode) by reflexivity
        | rewrite (is_question_strip_agree U ascii_unicode) by reflexivity ];
  reflexivity.

Lemma proceed_is_question :
  is_question (strip (lit "Do you want to proceed?")) = true.
Proof. on_ascii. Qed.

Lemma yes_is_no_question : is_question (strip (lit "1. Yes")) = false.
Proof. on_ascii. Qed.

Lemma no_is_no_question : is_question (strip (lit "2. No")) = false.
Proof. on_ascii. Qed.

Lemma proceed_is_no_option : line_options (lit "Do you want to proceed?") = [].
Proof. on_ascii. Qed.

Lemma yes_option :
  line_options (lit "1. Yes")
  = [ {| opt_id := 1; opt_label := lit "Yes"; requiresInput := false |} ].
Proof. on_ascii. Qed.

Lemma no_option :
  line_options (lit "2. No")
  = [ {| opt_id := 2; opt_label := lit "No"; requiresInput := false |} ].
Proof. on_ascii. Qed.

Lemma custom_response_option :
  line_options (lit "3. Type a custom response") = [Examples.custom_option].
Proof. on_ascii. Qed.

End Lines.

(** *** The patterns on small inputs *)

Example option_pattern_gives_back_space :
  @option_pattern ascii_unicode (lit "1.    ") = Some (lit "1", lit " ").
Proof. reflexivity. Qed.

Example option_pattern_needs_label :
  @option_pattern ascii_unicode (lit "1. ") = None
  /\ @option_pattern ascii_unicode (lit "1.x") = None
  /\ @option_pattern ascii_unicode (lit "a1. b") = None.
Proof. repeat split. Qed.

Example option_pattern_marker :
  @option_pattern ascii_unicode ([226; 8364; 186; 32] ++ lit "12.  ab c")
  = Some (lit "12", lit "ab c").
Proof. reflexivity. Qed.

Example option_pattern_final_newline :
  @option_pattern ascii_unicode (lit "1. a" ++ [LF]) = Some (lit "1", lit "a")
  /\ @option_pattern ascii_unicode (lit "1. a" ++ [LF] ++ lit "b") = None.
Proof. split; reflexivity. Qed.

Example strip_ansi_colour :
  strip_ansi (ESC :: lit "[1;31mX" ++ ESC :: lit "[0") = lit "X" ++ ESC :: lit "[0".
Proof. reflexivity. Qed.

Example strip_ansi_title :
  strip_ansi (ESC :: lit "]0;title" ++ BEL :: lit "abc") = lit "abc"
  /\ strip_ansi (ESC :: lit "]0;ti" ++ LF :: lit "tle" ++ BEL :: lit "abc")
     = ESC :: lit "]0;ti" ++ LF :: lit "tle" ++ BEL :: lit "abc"
  /\ strip_ansi (ESC :: lit "]0;title" ++ ESC :: 92 :: lit "abc")
     = ESC :: lit "]0;title" ++ ESC :: 92 :: lit "abc".
Proof. repeat split. Qed.

Example strip_ansi_string :
  strip_ansi (ESC :: lit "Pq" ++ ESC :: ESC :: 92 :: lit "abc") = lit "abc".
Proof. reflexivity. Qed.

Example strip_ansi_one_pass :
  strip_ansi (ESC :: ESC :: lit "[0m[0m") = ESC :: lit "[0m".
Proof. reflexivity. Qed.

Example split_nl_pieces :
  split_nl (lit "a" ++ [LF; LF] ++ lit "b") = [lit "a"; []; lit "b"]
  /\ split_nl [] = [[]].
Proof. split; reflexivity. Qed.

(** *** The claims about the detector *)

(** C5: text whose cleaned lines hold ["Do you want to proceed?"],
    ["1. Yes"] and ["2. No"] one after the other, with no further option
    line and no later question line, yields the prompt with that question
    and exactly the two options 1 and 2, neither asking for free input;
    so does, in particular, any text that carries these three lines and
    control sequences of the forms [strip_ansi] removes, wherever the
    sequences stand. *)
Theorem proceed_prompt_detected {U : Unicode} :
  (forall (text : str) (pre post : list str),
      split_nl (strip_ansi text)
      = pre ++ [lit "Do you want to proceed?"; lit "1. Yes"; lit "2. No"]
            ++ post ->
      (forall l, In l (pre ++ post) -> is_option_line l = false) ->
      (forall l, In l post -> is_question (strip l) = false) ->
      detect_permission_prompt text = Some Examples.proceed_event)
  /\ (forall ps : list piece,
        forallb well_formed ps = true ->
        plain_text ps
        = lit "Do you want to proceed?" ++ [LF] ++ lit "1. Yes" ++ [LF]
          ++ lit "2. No" ->
        detect_permission_prompt (render_all ps)
        = Some Examples.proceed_event).
Proof.
  assert (A : forall (text : str) (pre post : list str),
      split_nl (strip_ansi text)
      = pre ++ [lit "Do you want to proceed?"; lit "1. Yes"; lit "2. No"]
            ++ post ->
      (forall l, In l (pre ++ post) -> is_option_line l = false) ->
      (forall l, In l post -> is_question (strip l) = false) ->
      detect_permission_prompt text = Some Examples.proceed_event).
  { intros text pre post Hlines Hopt Hq.
    unfold detect_permission_prompt. rewrite Hlines.
    set (found := fold_left scan_line _ _).
    assert (Hs : snd found = options Examples.proceed_event).
    { unfold found. rewrite scan_options. cbn [snd app].
      rewrite flat_map_app. cbn [app flat_map].
      rewrite (no_options pre), (no_options post)
        by (intros; apply Hopt, in_or_app; auto).
      now rewrite proceed_is_no_option, yes_option, no_option. }
    assert (Hf : fst found = Some (lit "Do you want to proceed?")).
    { unfold found. rewrite fold_scan_app. cbn [app fold_left].
      rewrite (scan_question_kept post Hq).
      unfold scan_line; cbn [fst].
      now rewrite no_is_no_question, yes_is_no_question,
        proceed_is_question. }
    rewrite Hs, Hf. reflexivity. }
  split; [exact A|].
  intros ps Hwf Hplain. apply (A (render_all ps) [] []).
  - rewrite (strip_ansi_render ps Hwf), Hplain. reflexivity.
  - intros l [].
  - intros l [].
Qed.

Lemma proceed_prompt_detected_witness :
  @detect_permission_prompt ascii_unicode Examples.drawn_prompt
  = Some Examples.proceed_event
  /\ @detect_permission_prompt ascii_unicode
       (render_all Examples.drawn_pieces)
     = Some Examples.proceed_event.
Proof.
  split.
  - apply (proj1 (@proceed_prompt_detected ascii_unicode)
             Examples.drawn_prompt [] []).
    + vm_compute. reflexivity.
    + simpl. intros l [].
    + simpl. intros l [].
  - apply (proj2 (@proceed_prompt_detected ascii_unicode)
             Examples.drawn_pieces); reflexivity.
Defined.

(** C6: the detector answers with a prompt only if at least two lines of
    the cleaned text are option lines, and the prompt then has one option
    per such line; with fewer than two it answers [None]. *)
Theorem prompt_needs_two_option_lines {U : Unicode} (text : str) :
  let n := length (filter is_option_line (split_nl (strip_ansi text))) in
  (forall p, detect_permission_prompt text = Some p ->
             (2 <= n)%nat /\ length (options p) = n)
  /\ ((n < 2)%nat -> detect_permission_prompt text = None).
Proof.
  intros n.
  assert (E : length (snd (fold_left scan_line (split_nl (strip_ansi text))
                             (None, []))) = n).
  { rewrite scan_options. apply options_count. }
  unfold detect_permission_prompt. rewrite E. split.
  - intros p. destruct (Nat.leb_spec 2 n); [|discriminate].
    intros [= <-]. now split.
  - intros H. destruct (Nat.leb_spec 2 n); [lia|reflexivity].
Qed.

Lemma prompt_needs_two_option_lines_witness :
  @detect_permission_prompt ascii_unicode (lit "Proceed?" ++ [LF] ++ lit "1. Yes")
  = None.
Proof.
  apply (proj2 (@prompt_needs_two_option_lines ascii_unicode
                  (lit "Proceed?" ++ [LF] ++ lit "1. Yes"))).
  vm_compute. lia.
Defined.

(** C8, as the source has it: on text made of runs without ESC and of
    sequences of the three forms of the pattern, [strip_ansi] returns the
    runs alone, and no ESC is left in what the line matcher scans. *)
Theorem strip_ansi_well_formed (ps : list piece) :
  forallb well_formed ps = true ->
  strip_ansi (render_all ps) = plain_text ps
  /\ existsb (N.eqb ESC) (strip_ansi (render_all ps)) = false.
Proof.
  intros H. rewrite (strip_ansi_render ps H). split; [reflexivity|].
  now apply plain_text_no_esc.
Qed.

Lemma strip_ansi_well_formed_witness :
  strip_ansi
    (render_all [Csi (lit "1;31") 109; Plain (lit "1. Yes"); Osc (lit "0;t");
                 Dcs 80 (lit "q"); Plain [LF]; Csi [] 75])
  = lit "1. Yes" ++ [LF].
Proof.
  apply (proj1 (strip_ansi_well_formed
    [Csi (lit "1;31") 109; Plain (lit "1. Yes"); Osc (lit "0;t");
     Dcs 80 (lit "q"); Plain [LF]; Csi [] 75] eq_refl)).
Defined.

(** C8, as it is worded, fails: the cursor-hiding sequence [ESC [ ? 2 5 l]
    is not of the pattern's forms and stays, so the matcher is handed the
    ESC and misses the option line that follows it; a lone backspace
    stays as well. *)
Lemma strip_ansi_leaves_escape :
  strip_ansi (ESC :: lit "[?25l1. Yes") = ESC :: lit "[?25l1. Yes"
  /\ existsb (N.eqb ESC) (strip_ansi (ESC :: lit "[?25l1. Yes")) = true
  /\ @is_option_line ascii_unicode (strip_ansi (ESC :: lit "[?25l1. Yes"))
     = false
  /\ @is_option_line ascii_unicode (lit "1. Yes") = true
  /\ strip_ansi [8; 97] = [8; 97].
Proof. repeat split; reflexivity. Qed.

(** *** The test [in], read as a statement *)

Lemma starts_with_spec (p s : str) :
  starts_with p s = true <-> exists post, s = p ++ post.
Proof.
  revert s. induction p as [|a p IH]; intros s.
  - split; [intros _; now exists s|reflexivity].
  - destruct s as [|b s]; simpl.
    + split; [discriminate|intros (post & H); discriminate].
    + rewrite andb_true_iff, IH, N.eqb_eq. split.
      * intros (-> & post & ->). now exists post.
      * intros (post & [= -> ->]). split; [reflexivity|now exists post].
Qed.

Lemma contains_spec (p s : str) : contains p s = true <-> occurs p s.
Proof.
  unfold occurs. induction s as [|b s IH].
  - simpl. rewrite orb_false_r, starts_with_spec. split.
    + intros (post & H). now exists [], post.
    + intros (pre & post & H). destruct pre as [|c pre]; [|discriminate].
      now exists post.
  - cbn [contains]. rewrite orb_true_iff, starts_with_spec, IH. split.
    + intros [(post & H)|(pre & post & H)].
      * now exists [], post.
      * exists (b :: pre), post. now rewrite H.
    + intros (pre & post & H). destruct pre as [|c pre].
      * left. now exists post.
      * right. injection H as _ H. now exists pre, post.
Qed.

Lemma occurs_map (f : char -> char) (w s : str) :
  occurs w (map f s)
  <-> exists pre x post, s = pre ++ x ++ post /\ map f x = w.
Proof.
  unfold occurs. split.
  - intros (pre & post & H).
    apply map_eq_app in H. destruct H as (pre' & rest & -> & _ & H).
    apply map_eq_app in H. destruct H as (x & post' & -> & H & _).
    now exists pre', x, post'.
  - intros (pre & x & post & -> & <-).
    exists (map f pre), (map f post). now rewrite !map_app.
Qed.

Lemma mentions_spec {U : Unicode} (word : string) (s : str) :
  mentions word s = true <-> occurs (lit word) (lower s).
Proof. apply contains_spec. Qed.

(** C9, as the source has it: every option of a detected prompt asks
    for free input exactly when the letters [type] or the letters [tell]
    stand somewhere in its label put in lower case, whatever the label is
    about; for a label of ASCII characters, exactly when some stretch of
    the label spells one of the two words in letters of either case.  The
    line ["3. Type a custom response"] gives the option 3 with the flag
    set, and a prompt detected in text holding that line has it. *)
Theorem freeform_flag {U : Unicode} :
  (forall text p o,
      detect_permission_prompt text = Some p -> In o (options p) ->
      (requiresInput o = true
       <-> occurs (lit "type") (lower (opt_label o))
           \/ occurs (lit "tell") (lower (opt_label o))))
  /\ (forall text p o,
        detect_permission_prompt text = Some p -> In o (options p) ->
        forallb is_ascii (opt_label o) = true ->
        (requiresInput o = true
         <-> exists pre w post,
               opt_label o = pre ++ w ++ post
               /\ (map ascii_lower w = lit "type"
                   \/ map ascii_lower w = lit "tell")))
  /\ line_options (lit "3. Type a custom response") = [Examples.custom_option]
  /\ (forall text p,
        detect_permission_prompt text = Some p ->
        In (lit "3. Type a custom response") (split_nl (strip_ansi text)) ->
        In Examples.custom_option (options p)).
Proof.
  assert (A : forall text p o,
      detect_permission_prompt text = Some p -> In o (options p) ->
      (requiresInput o = true
       <-> occurs (lit "type") (lower (opt_label o))
           \/ occurs (lit "tell") (lower (opt_label o)))).
  { intros text p o Hp Ho. rewrite (detected_options text Hp) in Ho.
    rewrite (made_option_flag o _ Ho), orb_true_iff, !mentions_spec.
    reflexivity. }
  split; [exact A|]. split; [|split].
  - intros text p o Hp Ho Ha. rewrite (A text p o Hp Ho).
    rewrite (lower_ascii _ Ha), !occurs_map. split.
    + intros [(pre & w & post & E & H)|(pre & w & post & E & H)];
        exists pre, w, post; auto.
    + intros (pre & w & post & E & [H|H]);
        [left|right]; now exists pre, w, post.
  - apply custom_response_option.
  - intros text p Hp Hl. rewrite (detected_options text Hp).
    apply in_flat_map. exists (lit "3. Type a custom response").
    split; [assumption|]. rewrite custom_response_option. now left.
Qed.

Lemma freeform_flag_witness :
  requiresInput Examples.custom_option = true
  <-> occurs (lit "type")
        (@lower ascii_unicode (opt_label Examples.custom_option))
      \/ occurs (lit "tell")
           (@lower ascii_unicode (opt_label Examples.custom_option)).
Proof.
  apply (proj1 (@freeform_flag ascii_unicode) Examples.three_options
           {| question := lit "Permission required";
              options := options Examples.proceed_event
                         ++ [Examples.custom_option] |}
           Examples.custom_option).
  - reflexivity.
  - vm_compute. right. right. now left.
Defined.

(** C9, as it is worded, fails: of these two options the first is no
    request for text and has the flag, its label ending in the word
    type; the second asks for text and has not, its label spelling
    neither word. *)
Lemma flag_follows_letters :
  @detect_permission_prompt ascii_unicode Examples.file_type_options
  = Some Examples.file_type_event
  /\ map requiresInput (options Examples.file_type_event) = [true; false].
Proof. split; reflexivity. Qed.

End DetectorFacts.

(* ================================================================== *)
(** ** Facts about the relay *)

Module RelayFacts.
Import PyStr Detector Sys Relay.

Unset Implicit Arguments.

#[local] Arguments detect_permission_prompt : simpl never.
#[local] Arguments cap : simpl never.
#[local] Arguments exit_code_of : simpl never.

(** *** Traces split at any point *)

Lemma chunks_read_app (f : fd) (a b : list event) :
  chunks_read f (a ++ b) = chunks_read f a ++ chunks_read f b.
Proof.
  induction a as [|e a IH]; [reflexivity|].
  destruct e as [| g [[|x data]| |] | | | | | | | | | |]; simpl; auto.
  destruct (fd_eqb f g); simpl; now rewrite IH.
Qed.

Lemma chunks_written_app (f : fd) (a b : list event) :
  chunks_written f (a ++ b) = chunks_written f a ++ chunks_written f b.
Proof.
  induction a as [|e a IH]; [reflexivity|].
  destruct e; simpl; auto.
  destruct (fd_eqb f f0); simpl; now rewrite IH.
Qed.

Lemma observed_exits_app (a b : list event) :
  observed_exits (a ++ b) = observed_exits a ++ observed_exits b.
Proof.
  induction a as [|e a IH]; [reflexivity|].
  destruct e as [| | | | | [[p status]| |] | | | | | |]; simpl; auto.
  destruct (p =? 0)%Z; simpl; now rewrite IH.
Qed.

Lemma cap_length (buf : str) : (length (cap buf) <= 2048)%nat.
Proof.
  unfold cap. destruct (Nat.ltb_spec 2048 (length buf)); [|assumption].
  rewrite length_skipn. lia.
Qed.

(** *** Every stretch of the loop is a relay *)

Lemma relayed_seq (st st1 st2 : state) (c : control) (ev1 ev2 : list event) :
  relayed st Next st1 ev1 -> relayed st1 c st2 ev2 ->
  relayed st c st2 (ev1 ++ ev2).
Proof.
  intros (L1 & M1 & O1 & R1 & T1 & B1 & E1 & X1 & F1)
         (L2 & M2 & O2 & R2 & T2 & B2 & X2).
  unfold relayed.
  rewrite forallb_app, !chunks_written_app, !chunks_read_app,
    observed_exits_app, filter_app, T1, L1, L2, M1, M2, O1, O2, R1, R2, X1, F1.
  repeat split; auto.
  - intros tail. now rewrite <- app_assoc, T1, T2, app_assoc.
  - rewrite <- E1. exact X2.
Qed.

Lemma always_seq (m1 m2 : step) : always m1 -> always m2 -> always (seq m1 m2).
Proof.
  intros H1 H2 st c st' ev. unfold seq.
  destruct (m1 st) as [[c1 st1] ev1] eqn:E1. specialize (H1 _ _ _ _ E1).
  destruct c1.
  - destruct (m2 st1) as [[c2 st2] ev2] eqn:E2. specialize (H2 _ _ _ _ E2).
    intros [= <- <- <-]. now apply relayed_seq with st1.
  - now intros [= <- <- <-].
  - now intros [= <- <- <-].
Qed.

Ltac leaf :=
  intros [= <- <- <-]; unfold relayed; simpl;
  repeat split; auto using cap_length; try lia;
  try (left; split; reflexivity).

Section WithDecoder.
Context {U : Unicode}.
Variable decode : bytes -> str.

Lemma always_relay_stdin (it : iteration) : always (relay_stdin it).
Proof.
  intros st c st' ev. unfold relay_stdin, ret.
  destruct (stdin_read it) as [[|b data]| |];
    [|destruct (master_write it)| |]; leaf.
Qed.

Lemma always_relay_master (it : iteration) : always (relay_master decode it).
Proof.
  intros st c st' ev.
  unfold relay_master, mirror, feed, send_prompt_to_fd, set_buffer, seq, ret.
  destruct (master_read it) as [[|b data]| |]; [leaf| |leaf|leaf].
  destruct (stdout_write it); [|leaf|leaf]. simpl or_break. cbv iota.
  destruct (mirror_fstat it) as [[]| |]; [| |leaf].
  - destruct (mirror_write it) as [[]| |]; simpl or_pass; cbv iota beta;
      [| |leaf];
      (destruct (detect_permission_prompt _); [|leaf];
       destruct (prompt_fstat it) as [[]| |]; [| |leaf];
       [destruct (prompt_write it) as [[]| |]|]; leaf).
  - simpl or_pass; cbv iota beta.
    destruct (detect_permission_prompt _); [|leaf].
    destruct (prompt_fstat it) as [[]| |]; [| |leaf];
      [destruct (prompt_write it) as [[]| |]|]; leaf.
Qed.

Lemma always_poll_child (it : iteration) : always (poll_child it).
Proof.
  intros st c st' ev. unfold poll_child.
  destruct (poll it) as [[p status]| |] eqn:E; [|leaf|leaf].
  destruct (p =? 0)%Z eqn:Ep.
  - intros [= <- <- <-]. unfold relayed; simpl. rewrite Ep.
    repeat split; auto.
  - intros [= <- <- <-]. unfold relayed; simpl. rewrite Ep.
    repeat split; auto. right. exists status. repeat split; auto.
Qed.

Lemma always_ret (c : control) (r : result (bool * bool)) :
  c <> Break -> always (ret c [Select r]).
Proof.
  intros Hc st c' st' ev [= <- <- <-]. unfold relayed; simpl.
  repeat split; auto. destruct c; [| contradiction |]; repeat split; auto.
Qed.

Lemma always_skip : always (ret Next []).
Proof.
  intros st c' st' ev [= <- <- <-]. unfold relayed; simpl. repeat split; auto.
Qed.

Lemma always_body (it : iteration) : always (body decode it).
Proof.
  unfold body. destruct (sel it) as [[stdin_ready master_ready]| |].
  - apply always_seq; [apply always_ret; discriminate|].
    apply always_seq;
      [destruct stdin_ready; [apply always_relay_stdin|apply always_skip]|].
    apply always_seq;
      [destruct master_ready; [apply always_relay_master|apply always_skip]|].
    apply always_poll_child.
  - apply always_ret; discriminate.
  - apply always_ret; discriminate.
Qed.

Lemma always_loop (script : list iteration) : always (loop decode script).
Proof.
  induction script as [|it script IH]; simpl.
  - apply always_skip.
  - apply always_seq; [apply always_body|exact IH].
Qed.

Lemma loop_from_initial (script : list iteration) c st ev :
  loop decode script initial = (c, st, ev) -> relayed initial c st ev.
Proof. apply always_loop. Qed.

End WithDecoder.

(** *** Reading the whole trace of [main] *)

Lemma quiet_filter (p : event -> bool) (ev : list event) :
  (forall e, in_loop e = true -> p e = false) ->
  forallb in_loop ev = true -> filter p ev = [].
Proof.
  intros Hp. induction ev as [|e ev IH]; [reflexivity|].
  simpl. intros H. apply andb_true_iff in H. destruct H as [He Hev].
  now rewrite (Hp e He), IH.
Qed.

Lemma observed_exits_in (p status : Z) (ev : list event) :
  p <> 0%Z -> In (Poll (Ok (p, status))) ev -> In status (observed_exits ev).
Proof.
  intros Hp. induction ev as [|e ev IH]; [contradiction|].
  intros [->|H].
  - simpl. apply Z.eqb_neq in Hp. rewrite Hp. now left.
  - specialize (IH H).
    destruct e as [| | | | | [[q s]| |] | | | | | |]; simpl; auto.
    destruct (q =? 0)%Z; [assumption|now right].
Qed.

Lemma eof_in (f : fd) (ev : list event) :
  In (Read f (Ok [])) ev -> filter is_eof ev <> [].
Proof.
  induction ev as [|e ev IH]; [contradiction|].
  intros [->|H]; simpl; [discriminate|].
  destruct (is_eof e); [discriminate|auto].
Qed.

Lemma exited_status (N : Z) :
  (0 <= N < 256)%Z -> exit_code_of (W_EXITCODE N 0) = N.
Proof.
  intros H. unfold exit_code_of, WIFEXITED, WEXITSTATUS, W_EXITCODE.
  rewrite Z.lor_0_r.
  change 127%Z with (Z.ones 7). change 255%Z with (Z.ones 8).
  rewrite !Z.land_ones by lia.
  rewrite Z.shiftr_shiftl_l, Z.sub_diag, Z.shiftl_0_r by lia.
  rewrite Z.shiftl_mul_pow2 by lia.
  replace (N * 2 ^ 8)%Z with (N * 2 * 2 ^ 7)%Z by lia.
  rewrite Z.mod_mul by lia. simpl.
  apply Z.mod_small. lia.
Qed.

Lemma abnormal_status (status : Z) :
  WIFEXITED status = false -> exit_code_of status = 1%Z.
Proof. intros H. unfold exit_code_of. now rewrite H. Qed.

(** *** The calls around the loop *)

Lemma outside_nothing (f : fd) (rest : list event) :
  forallb outside_loop rest = true ->
  chunks_written f rest = [] /\ chunks_read f rest = []
  /\ observed_exits rest = [] /\ filter is_eof rest = []
  /\ forall tail, chunks_due_to_mirror (rest ++ tail) = chunks_due_to_mirror tail.
Proof.
  induction rest as [|e rest IH]; [repeat split|].
  simpl. intros H. apply andb_true_iff in H. destruct H as [He Hr].
  destruct (IH Hr) as (W & R & O & F & D).
  destruct e; try discriminate He; simpl; repeat split; auto.
Qed.

Lemma before_loop_outside (tty : bool) :
  forallb outside_loop (before_loop tty) = true.
Proof. now destruct tty. Qed.

Lemma after_loop_outside (tty : bool) c st (h : aftermath) :
  forallb outside_loop (fst (after_loop tty c st h)) = true.
Proof.
  unfold after_loop, on_interrupt, finally.
  destruct c as [| |[|]]; destruct tty; try reflexivity;
    destruct (kill_result h); try destruct (wait_result h); reflexivity.
Qed.

(** the trace of a run, around the calls [ev] of its loop *)
Lemma around_loop (f : fd) (tty : bool) (ev rest : list event) :
  forallb outside_loop rest = true ->
  (forall tail, chunks_due_to_mirror (ev ++ tail)
                = chunks_due_to_mirror ev ++ chunks_due_to_mirror tail) ->
  let tr := before_loop tty ++ ev ++ rest in
  chunks_written f tr = chunks_written f ev
  /\ chunks_read f tr = chunks_read f ev
  /\ observed_exits tr = observed_exits ev
  /\ filter is_eof tr = filter is_eof ev
  /\ chunks_due_to_mirror tr = chunks_due_to_mirror ev.
Proof.
  intros Hr T tr. unfold tr.
  destruct (outside_nothing f _ (before_loop_outside tty))
    as (W1 & R1 & O1 & F1 & D1).
  destruct (outside_nothing f _ Hr) as (W2 & R2 & O2 & F2 & D2).
  rewrite !chunks_written_app, !chunks_read_app, !observed_exits_app,
    !filter_app, D1, T, W1, W2, R1, R2, O1, O2, F1, F2.
  specialize (D2 []). rewrite app_nil_r in D2. simpl in D2.
  rewrite D2, !app_nil_r. repeat split; reflexivity.
Qed.

Section Claims.
Context {U : Unicode}.
Variable decode : bytes -> str.

Lemma main_trace (tty : bool) (script : list iteration) (h : aftermath) :
  exists c st ev,
    loop decode script initial = (c, st, ev)
    /\ relayed initial c st ev
    /\ main decode tty script h
       = (before_loop tty ++ ev ++ fst (after_loop tty c st h),
          snd (after_loop tty c st h)).
Proof.
  unfold main.
  destruct (loop decode script initial) as [[c st] ev] eqn:E.
  exists c, st, ev. split; [reflexivity|].
  split; [now apply loop_from_initial with decode script|].
  now destruct (after_loop tty c st h).
Qed.

(** *** The claims about the relay *)

(** The relay by the names of the calls: what is handed to the writes
    under each name. *)
Lemma relayed_by_name (stdin_is_tty : bool) (script : list iteration)
  (h : aftermath) :
  let tr := fst (main decode stdin_is_tty script h) in
  chunks_written Master tr = chunks_read Stdin tr
  /\ chunks_written Stdout tr = chunks_read Master tr
  /\ chunks_written MirrorFd tr = chunks_due_to_mirror tr.
Proof.
  destruct (main_trace stdin_is_tty script h) as (c & st & ev & _ & Rel & ->).
  destruct Rel as (_ & M & O & R & T & _). cbn [fst].
  pose proof (after_loop_outside stdin_is_tty c st h) as Hout.
  destruct (around_loop Master stdin_is_tty ev _ Hout T)
    as (-> & -> & _ & _ & ->).
  destruct (around_loop Stdin stdin_is_tty ev _ Hout T) as (_ & -> & _).
  destruct (around_loop Stdout stdin_is_tty ev _ Hout T) as (-> & _).
  destruct (around_loop MirrorFd stdin_is_tty ev _ Hout T) as (-> & _).
  auto.
Qed.

(** What the poll that saw the child gone leaves behind, and what a
    read that met the end of its stream does. *)
Lemma seen_exit (stdin_is_tty : bool) (script : list iteration)
  (h : aftermath) :
  let tr := fst (main decode stdin_is_tty script h) in
  let e := snd (main decode stdin_is_tty script h) in
  (forall status p, p <> 0%Z -> In (Poll (Ok (p, status))) tr ->
     e = SysExit (exit_code_of status))
  /\ (forall f, In (Read f (Ok [])) tr -> e = SysExit 0)
  /\ (observed_exits tr = [] -> forall code, e = SysExit code -> code = 0%Z).
Proof.
  destruct (main_trace stdin_is_tty script h) as (c & st & ev & _ & Rel & ->).
  destruct Rel as (_ & _ & _ & _ & T & _ & X). cbn [fst snd].
  pose proof (after_loop_outside stdin_is_tty c st h) as Hout.
  destruct (around_loop Master stdin_is_tty ev _ Hout T)
    as (_ & _ & HO & HF & _).
  split; [|split].
  - intros status p Hp H. apply (observed_exits_in p status _ Hp) in H.
    rewrite HO in H.
    destruct c as [| |e]; [destruct X as (_ & X & _); now rewrite X in H| |
                           destruct X as (_ & X & _); now rewrite X in H].
    destruct X as [[_ X]|(s & X & C & _)]; rewrite X in H;
      [contradiction|].
    destruct H as [->|[]]. simpl. now rewrite C.
  - intros f H. apply eof_in in H. rewrite HF in H.
    destruct c as [| |e]; [destruct X as (_ & _ & X); contradiction| |
                           destruct X as (_ & _ & X); contradiction].
    destruct X as [[C _]|(s & _ & _ & X)]; [|contradiction].
    simpl. now rewrite C.
  - rewrite HO. intros O code.
    unfold after_loop, on_interrupt.
    destruct c as [| |[|]]; cbn [snd]; try discriminate.
    + destruct X as [[C _]|(s & X & _)]; [|now rewrite X in O].
      intros [= <-]. exact C.
    + destruct X as (C & _).
      destruct (kill_result h); try discriminate;
        destruct (wait_result h); try discriminate;
        cbn [snd]; intros [= <-]; exact C.
Qed.


(** C10: when the interrupt ends the loop, the wrapper sends SIGINT to
    the child, waits for it, runs the [finally] block and exits with
    status 0, whatever status word the wait gave back. *)
Theorem interrupt_exits_zero (stdin_is_tty : bool) (script : list iteration)
  (h : aftermath) (st : state) (ev : list event) (p status : Z) :
  loop decode script initial = (Raise Interrupt, st, ev) ->
  kill_result h = Ok tt ->
  wait_result h = Ok (p, status) ->
  main decode stdin_is_tty script h
  = (before_loop stdin_is_tty ++ ev
     ++ [Kill (Ok tt); Wait (Ok (p, status))]
     ++ finally stdin_is_tty ++ [Exit 0],
     SysExit 0).
Proof.
  intros E Hk Hw.
  destruct (loop_from_initial decode script _ st ev E)
    as (_ & _ & _ & _ & _ & _ & C & _).
  unfold main. rewrite E. unfold after_loop, on_interrupt.
  rewrite Hk, Hw, C. reflexivity.
Qed.

End Claims.

(** The four ways out of the loop, on a terminal: the end of the input,
    the child seen gone, the interrupt, a failed write. *)
Example cleanup_on_each_way_out :
  map (fun script =>
         let run := @main ascii_unicode Examples.decode_ascii true script
                      Examples.child_collected in
         (count is_restore (fst run), count is_close_master (fst run),
          snd run))
      [[Examples.idle; Examples.input_closed];
       [Examples.idle; Examples.child_gone 768];
       [Examples.idle; Examples.interrupted];
       [Examples.idle; Examples.output_lost]]
  = [(1%nat, 1%nat, SysExit 0); (1%nat, 1%nat, SysExit 3);
     (1%nat, 1%nat, SysExit 0); (1%nat, 1%nat, SysExit 0)].
Proof. reflexivity. Qed.


Lemma interrupt_exits_zero_witness :
  @main ascii_unicode Examples.decode_ascii true
    [Examples.idle; Examples.interrupted] Examples.child_collected
  = ([Close Slave; Setraw;
      Select (Ok (false, false)); Poll (Ok (0%Z, 0%Z));
      Select KeyboardInterrupt;
      Kill (Ok tt); Wait (Ok (4242%Z, 768%Z));
      Tcsetattr; Close Master; Exit 0],
     SysExit 0).
Proof.
  apply (@interrupt_exits_zero ascii_unicode Examples.decode_ascii true
           [Examples.idle; Examples.interrupted] Examples.child_collected
           initial
           [Select (Ok (false, false)); Poll (Ok (0%Z, 0%Z));
            Select KeyboardInterrupt]
           4242%Z 768%Z); reflexivity.
Defined.

End RelayFacts.

(* ================================================================== *)
(** ** Facts about the geometry *)

Module GeometryFacts.
Import Geometry.

Local Open Scope N_scope.

Lemma default_geometry :
  initial_winsize false None = set_winsize 24 80
  /\ initial_winsize true None = set_winsize 24 80
  /\ set_winsize 24 80 = geometry_of {| columns := 80; lines := 24 |}.
Proof. repeat split. Qed.

(** C4: run for an interactive input, the handler gives the
    pseudo-terminal as many rows as the terminal has columns and as many
    columns as it has lines; for a terminal of 80 columns and 24 lines
    that is 80 rows of 24 columns, which is not the terminal's geometry,
    while the default of the same source is 24 rows of 80 columns. *)
Theorem sigwinch_swaps_rows_and_columns :
  (forall size pty,
      handle_sigwinch true (Some size) pty
      = set_winsize (columns size) (lines size))
  /\ handle_sigwinch true (Some {| columns := 80; lines := 24 |})
       (set_winsize 24 80)
     = {| ws_row := 80; ws_col := 24; ws_xpixel := 0; ws_ypixel := 0 |}
  /\ handle_sigwinch true (Some {| columns := 80; lines := 24 |})
       (set_winsize 24 80)
     <> geometry_of {| columns := 80; lines := 24 |}
  /\ initial_winsize false None
     = geometry_of {| columns := 80; lines := 24 |}.
Proof. repeat split. discriminate. Qed.

End GeometryFacts.

(* ================================================================== *)
(** ** What a match is made of *)

Module RegexFacts.
Import PyStr Regex.

Unset Implicit Arguments.

Section Pieces.
Variable R : Type.

Lemma star_elim (cls : char -> bool) (k : str -> str -> option R) (res : R) :
  forall s acc,
    star cls acc k s = Some res ->
    exists m r, s = m ++ r /\ forallb cls m = true
                /\ k (acc ++ m) r = Some res.
Proof.
  induction s as [|c s IH]; intros acc H; simpl in H.
  - exists [], []. simpl. rewrite app_nil_r. auto.
  - destruct (cls c) eqn:Hc.
    + destruct (star cls (acc ++ [c]) k s) as [r0|] eqn:E.
      * injection H as <-. destruct (IH _ E) as (m & r & -> & Hm & Hk).
        exists (c :: m), r. rewrite <- app_assoc in Hk. simpl.
        now rewrite Hc, Hm.
      * exists [], (c :: s). simpl. rewrite app_nil_r. auto.
    + exists [], (c :: s). simpl. rewrite app_nil_r. auto.
Qed.

Lemma plus_elim (cls : char -> bool) (k : str -> str -> option R) (res : R)
  (s : str) :
  plus cls k s = Some res ->
  exists m r, s = m ++ r /\ m <> [] /\ forallb cls m = true
              /\ k m r = Some res.
Proof.
  destruct s as [|c s]; simpl; [discriminate|].
  destruct (cls c) eqn:Hc; [|discriminate].
  intros H. destruct (star_elim _ _ _ _ _ H) as (m & r & -> & Hm & Hk).
  exists (c :: m), r. simpl. rewrite Hc, Hm. repeat split; auto.
  discriminate.
Qed.

Lemma lazy_star_elim (cls : char -> bool) (k : str -> option R) (res : R) :
  forall s,
    lazy_star cls k s = Some res ->
    exists m r, s = m ++ r /\ forallb cls m = true /\ k r = Some res.
Proof.
  induction s as [|c s IH]; intros H; simpl in H.
  - destruct (k []) eqn:E; [|discriminate]. injection H as <-.
    now exists [], [].
  - destruct (k (c :: s)) eqn:E.
    + injection H as <-. now exists [], (c :: s).
    + destruct (cls c) eqn:Hc; [|discriminate].
      destruct (IH H) as (m & r & -> & Hm & Hk).
      exists (c :: m), r. simpl. now rewrite Hc, Hm.
Qed.

Lemma chr_elim (a : char) (k : str -> option R) (res : R) (s : str) :
  chr a k s = Some res -> exists r, s = a :: r /\ k r = Some res.
Proof.
  destruct s as [|c s]; simpl; [discriminate|].
  destruct (N.eqb_spec c a); [|discriminate]. subst. intros H. now exists s.
Qed.

Lemma one_elim (cls : char -> bool) (k : str -> option R) (res : R) (s : str) :
  one cls k s = Some res ->
  exists c r, s = c :: r /\ cls c = true /\ k r = Some res.
Proof.
  destruct s as [|c s]; simpl; [discriminate|].
  destruct (cls c) eqn:Hc; [|discriminate]. intros H. now exists c, s.
Qed.

(** *** A pattern that cannot take the next character stops before it *)

Variable t : str.
Variable cls : char -> bool.
Hypothesis stop : match t with c :: _ => cls c = false | [] => True end.

Lemma star_before (k : str -> str -> option R) :
  forall s acc,
    star cls acc k (s ++ t) = star cls acc (fun a r => k a (r ++ t)) s.
Proof.
  induction s as [|c s IH]; intros acc; simpl.
  - destruct t as [|c t']; [reflexivity|]. simpl. now rewrite stop.
  - now rewrite IH.
Qed.

Lemma lazy_star_before (k : str -> option R) :
  forall s,
    lazy_star cls k (s ++ t)
    = lazy_star cls (fun r => k (r ++ t)) s.
Proof.
  induction s as [|c s IH]; simpl.
  - destruct t as [|c t']; [reflexivity|]. simpl. now rewrite stop.
  - now rewrite IH.
Qed.

End Pieces.

Lemma star_map (A B : Type) (f : A -> B) (cls : char -> bool)
  (k : str -> str -> option A) :
  forall s acc,
    star cls acc (fun a r => option_map f (k a r)) s
    = option_map f (star cls acc k s).
Proof.
  induction s as [|c s IH]; intros acc; simpl; [reflexivity|].
  destruct (cls c); [|reflexivity].
  rewrite IH. now destruct (star cls (acc ++ [c]) k s).
Qed.

Lemma lazy_star_map (A B : Type) (f : A -> B) (cls : char -> bool)
  (k : str -> option A) :
  forall s,
    lazy_star cls (fun r => option_map f (k r)) s
    = option_map f (lazy_star cls k s).
Proof.
  induction s as [|c s IH]; simpl.
  - now destruct (k []).
  - destruct (k (c :: s)); [reflexivity|].
    destruct (cls c); [apply IH|reflexivity].
Qed.

Lemma star_ext_k (R : Type) (cls : char -> bool)
  (k k' : str -> str -> option R) :
  (forall a r, k a r = k' a r) ->
  forall s acc, star cls acc k s = star cls acc k' s.
Proof.
  intros H. induction s as [|c s IH]; intros acc; simpl; [apply H|].
  now rewrite IH, H.
Qed.

Lemma lazy_star_ext_k (R : Type) (cls : char -> bool)
  (k k' : str -> option R) :
  (forall r, k r = k' r) ->
  forall s, lazy_star cls k s = lazy_star cls k' s.
Proof.
  intros H. induction s as [|c s IH]; simpl; rewrite H; [reflexivity|].
  now rewrite IH.
Qed.

End RegexFacts.

(* ================================================================== *)
(** ** More about the detector *)

Module DetectorMore.
Import PyStr Regex Detector Lines RegexFacts DetectorFacts.

Unset Implicit Arguments.
Local Open Scope N_scope.

(** *** Lines *)

Lemma subseq_refl (A : Type) (s : list A) : subseq s s.
Proof. induction s; constructor; assumption. Qed.

Lemma subseq_forallb (A : Type) (p : A -> bool) (s t : list A) :
  subseq s t -> forallb p t = true -> forallb p s = true.
Proof.
  induction 1 as [|a s t _ IH|a s t _ IH]; simpl; auto;
    intros H; apply andb_true_iff in H; destruct H as [Ha Ht]; auto.
  now rewrite Ha, IH.
Qed.

Lemma subseq_length (A : Type) (s t : list A) :
  subseq s t -> (length s <= length t)%nat.
Proof. induction 1; simpl; lia. Qed.

Lemma split_nl_plain (a : str) : no_LF a = true -> split_nl a = [a].
Proof.
  induction a as [|c a IH]; [reflexivity|].
  simpl. intros H. apply andb_true_iff in H. destruct H as [Hc Ha].
  apply negb_true_iff in Hc. now rewrite Hc, IH.
Qed.

Lemma split_nl_nonempty (s : str) : split_nl s <> [].
Proof.
  destruct s as [|c s]; simpl; [discriminate|].
  destruct (c =? LF); [discriminate|]. now destruct (split_nl s).
Qed.

Lemma split_nl_join (x y : str) :
  split_nl (x ++ LF :: y) = split_nl x ++ split_nl y.
Proof.
  induction x as [|c x IH]; [reflexivity|].
  simpl. destruct (c =? LF); [now rewrite IH|].
  rewrite IH. pose proof (split_nl_nonempty x).
  now destruct (split_nl x).
Qed.

Lemma split_nl_lines (s : str) :
  Forall (fun l => no_LF l = true) (split_nl s) /\ join_nl (split_nl s) = s.
Proof.
  induction s as [|c s IHs]; [split; [repeat constructor|reflexivity]|].
  destruct IHs as [Hf Hj]. pose proof (split_nl_nonempty s) as Hn.
  simpl. destruct (N.eqb_spec c LF) as [->|Hc].
  - split; [now constructor|].
    simpl. destruct (split_nl s); [contradiction|]. now rewrite Hj.
  - destruct (split_nl s) as [|l ls]; [contradiction|].
    apply Forall_cons_iff in Hf. destruct Hf as [Hl Hls].
    split.
    + constructor; [|assumption]. simpl. rewrite Hl.
      apply N.eqb_neq in Hc. now rewrite Hc.
    + simpl in *. destruct ls; now rewrite <- Hj.
Qed.

(** *** What [ansi_pattern] matches *)

Lemma param_is_dot (c : char) : is_param c = true -> dot c = true.
Proof.
  intros H. unfold dot, LF. apply negb_true_iff, N.eqb_neq.
  unfold is_param, in_range in H.
  apply orb_true_iff in H. destruct H as [H|H].
  - apply andb_true_iff in H. destruct H as [H _]. apply N.leb_le in H. lia.
  - apply N.eqb_eq in H. lia.
Qed.

Lemma letter_is_dot (c : char) : is_letter c = true -> dot c = true.
Proof.
  intros H. unfold dot, LF. apply negb_true_iff, N.eqb_neq.
  unfold is_letter, in_range in H.
  apply orb_true_iff in H. destruct H as [H|H];
    apply andb_true_iff in H; destruct H as [H _]; apply N.leb_le in H; lia.
Qed.

Lemma intro_is_dot (c : char) : is_string_intro c = true -> dot c = true.
Proof.
  intros H. unfold dot, LF. apply negb_true_iff, N.eqb_neq.
  unfold is_string_intro in H.
  repeat (apply orb_true_iff in H; destruct H as [H|H]);
    apply N.eqb_eq in H; lia.
Qed.

Lemma forallb_impl (A : Type) (p q : A -> bool) (s : list A) :
  (forall a, p a = true -> q a = true) ->
  forallb p s = true -> forallb q s = true.
Proof.
  intros H. induction s as [|a s IH]; simpl; [reflexivity|].
  intros E. apply andb_true_iff in E. destruct E as [Ea Es].
  now rewrite (H a Ea), IH.
Qed.

(** A match starts with ESC, takes at least one more character and
    never a line feed. *)
Lemma ansi_pattern_elim (s rest : str) :
  ansi_pattern s = Some rest ->
  exists m, s = ESC :: m ++ rest /\ m <> [] /\ forallb dot m = true.
Proof.
  unfold ansi_pattern, alt. destruct (csi s) as [r|] eqn:C.
  - intros [= ->]. unfold csi in C.
    apply chr_elim in C. destruct C as (s1 & -> & C).
    apply chr_elim in C. destruct C as (s2 & -> & C).
    apply star_elim in C. destruct C as (m & s3 & -> & Hm & C).
    apply one_elim in C. destruct C as (c & s4 & -> & Hc & [= ->]).
    exists (91 :: m ++ [c]). simpl. rewrite <- app_assoc. simpl.
    repeat split; [discriminate|].
    rewrite forallb_app. simpl.
    now rewrite (forallb_impl _ _ _ _ param_is_dot Hm), (letter_is_dot _ Hc).
  - destruct (osc s) as [r|] eqn:O.
    + intros [= ->]. unfold osc in O.
      apply chr_elim in O. destruct O as (s1 & -> & O).
      apply chr_elim in O. destruct O as (s2 & -> & O).
      apply lazy_star_elim in O. destruct O as (m & s3 & -> & Hm & O).
      apply chr_elim in O. destruct O as (s4 & -> & [= ->]).
      exists (93 :: m ++ [BEL]). simpl. rewrite <- app_assoc. simpl.
      repeat split; [discriminate|].
      rewrite forallb_app. simpl. now rewrite Hm.
    + intros D. unfold dcs in D.
      apply chr_elim in D. destruct D as (s1 & -> & D).
      apply one_elim in D. destruct D as (i & s2 & -> & Hi & D).
      apply lazy_star_elim in D. destruct D as (m & s3 & -> & Hm & D).
      apply chr_elim in D. destruct D as (s4 & -> & D).
      apply chr_elim in D. destruct D as (s5 & -> & [= ->]).
      exists (i :: m ++ [ESC; 92]). simpl. rewrite <- app_assoc. simpl.
      repeat split; [discriminate|].
      rewrite forallb_app. simpl. now rewrite Hm, (intro_is_dot _ Hi).
Qed.

Lemma sub_empty_subseq (s : str) : forall skip, subseq (sub_empty skip s) s.
Proof.
  induction s as [|c s IH]; intros skip; simpl; [constructor|].
  destruct skip; [|apply subseq_drop, IH].
  destruct (ansi_pattern (c :: s)); [apply subseq_drop|apply subseq_keep];
    apply IH.
Qed.

(** *** A match never reaches into the next line *)

Section NextLine.
Variable b : str.

Let t : str := LF :: b.
Let f : str -> str := fun r => r ++ t.

Lemma letter_before (r : str) :
  one is_letter (@Some str) (r ++ t) = option_map f (one is_letter (@Some str) r).
Proof. destruct r as [|c r]; simpl; [reflexivity|]. now destruct (is_letter c). Qed.

Lemma bell_before (r : str) :
  chr BEL (@Some str) (r ++ t) = option_map f (chr BEL (@Some str) r).
Proof. destruct r as [|c r]; simpl; [reflexivity|]. now destruct (c =? BEL). Qed.

Lemma terminator_before (r : str) :
  chr ESC (chr 92 (@Some str)) (r ++ t)
  = option_map f (chr ESC (chr 92 (@Some str)) r).
Proof.
  destruct r as [|c [|d r]]; simpl; [reflexivity| |].
  - now destruct (c =? ESC).
  - destruct (c =? ESC); [|reflexivity]. now destruct (d =? 92).
Qed.

Lemma chr_cons (R : Type) (x c : char) (k : str -> option R) (s : str) :
  chr x k (c :: s) = if c =? x then k s else None.
Proof. reflexivity. Qed.

Lemma one_cons (R : Type) (cls : char -> bool) (c : char)
  (k : str -> option R) (s : str) :
  one cls k (c :: s) = if cls c then k s else None.
Proof. reflexivity. Qed.

Lemma csi_before (a : str) :
  star is_param [] (fun _ => one is_letter (@Some str)) (a ++ t)
  = option_map f (star is_param [] (fun _ => one is_letter (@Some str)) a).
Proof.
  rewrite (star_before _ t is_param eq_refl).
  rewrite (star_ext_k _ is_param _
             (fun _ r => option_map f (one is_letter (@Some str) r))
             (fun _ => letter_before)).
  apply star_map.
Qed.

Lemma osc_before (a : str) :
  lazy_star dot (chr BEL (@Some str)) (a ++ t)
  = option_map f (lazy_star dot (chr BEL (@Some str)) a).
Proof.
  rewrite (lazy_star_before _ t dot eq_refl).
  rewrite (lazy_star_ext_k _ dot _
             (fun r => option_map f (chr BEL (@Some str) r)) bell_before).
  apply lazy_star_map.
Qed.

Lemma dcs_before (a : str) :
  lazy_star dot (chr ESC (chr 92 (@Some str))) (a ++ t)
  = option_map f (lazy_star dot (chr ESC (chr 92 (@Some str))) a).
Proof.
  rewrite (lazy_star_before _ t dot eq_refl).
  rewrite (lazy_star_ext_k _ dot _
             (fun r => option_map f (chr ESC (chr 92 (@Some str)) r))
             terminator_before).
  apply lazy_star_map.
Qed.

Lemma ansi_pattern_before (a : str) :
  ansi_pattern (a ++ LF :: b) = option_map f (ansi_pattern a).
Proof.
  fold t. destruct a as [|c1 [|c2 a]].
  - reflexivity.
  - unfold ansi_pattern, alt, csi, osc, dcs, chr, one. simpl.
    now destruct (c1 =? ESC).
  - unfold ansi_pattern, alt, csi, osc, dcs.
    change ((c1 :: c2 :: a) ++ t) with (c1 :: c2 :: a ++ t).
    rewrite !chr_cons, !one_cons, csi_before, osc_before, dcs_before.
    destruct (c1 =? ESC); [|reflexivity].
    destruct (c2 =? 91);
      [destruct (star is_param [] (fun _ => one is_letter (@Some str)) a);
       [reflexivity|]|];
      (destruct (c2 =? 93);
       [destruct (lazy_star dot (chr BEL (@Some str)) a); [reflexivity|]|];
       (destruct (is_string_intro c2); [|reflexivity];
        now destruct (lazy_star dot (chr ESC (chr 92 (@Some str))) a))).
Qed.

Lemma sub_empty_before (a : str) :
  forall skip, (skip <= length a)%nat ->
    sub_empty skip (a ++ LF :: b) = sub_empty skip a ++ LF :: sub_empty 0 b.
Proof.
  induction a as [|c a IH]; intros skip Hs.
  - assert (skip = 0%nat) as -> by (simpl in Hs; lia). reflexivity.
  - change ((c :: a) ++ LF :: b) with (c :: a ++ LF :: b).
    destruct skip as [|n]; cbn [sub_empty].
    + change (c :: a ++ LF :: b) with ((c :: a) ++ LF :: b).
      rewrite ansi_pattern_before.
      destruct (ansi_pattern (c :: a)) as [rest|] eqn:E; cbn [option_map].
      * unfold f, t. rewrite !length_app. cbn [length].
        replace (length a + S (length b) - (length rest + S (length b)))%nat
          with (length a - length rest)%nat by lia.
        apply IH. lia.
      * now rewrite IH by lia.
    + apply IH. simpl in Hs. lia.
Qed.

End NextLine.

Lemma strip_ansi_join (a b : str) :
  strip_ansi (a ++ LF :: b) = strip_ansi a ++ LF :: strip_ansi b.
Proof. unfold strip_ansi. apply sub_empty_before. lia. Qed.

Lemma strip_ansi_no_LF (a : str) : no_LF a = true -> no_LF (strip_ansi a) = true.
Proof. apply subseq_forallb, sub_empty_subseq. Qed.

Lemma strip_ansi_joined (lines : list str) :
  lines <> [] -> Forall (fun l => no_LF l = true) lines ->
  split_nl (strip_ansi (join_nl lines)) = map strip_ansi lines.
Proof.
  induction lines as [|l ls IH]; [contradiction|].
  intros _ H. apply Forall_cons_iff in H. destruct H as [Hl Hls].
  destruct ls as [|l' ls].
  - simpl. now apply split_nl_plain, strip_ansi_no_LF.
  - change (join_nl (l :: l' :: ls)) with (l ++ LF :: join_nl (l' :: ls)).
    rewrite strip_ansi_join, split_nl_join, IH by (assumption || discriminate).
    now rewrite (split_nl_plain _ (strip_ansi_no_LF _ Hl)).
Qed.

(** *** The extras about [strip_ansi] *)

(** X1: text without ESC comes out of [strip_ansi] as it went in. *)
Theorem strip_ansi_plain (text : str) :
  existsb (N.eqb ESC) text = false -> strip_ansi text = text.
Proof.
  intros H.
  assert (P : forallb (is_not ESC) text = true).
  { induction text as [|c s IH]; [reflexivity|].
    cbn [existsb forallb] in *. apply orb_false_iff in H.
    destruct H as [Hc Hs].
    unfold is_not. rewrite N.eqb_sym, Hc. now apply IH. }
  pose proof (sub_empty_plain text [] P) as E.
  cbn [sub_empty] in E. rewrite !app_nil_r in E. exact E.
Qed.

Lemma strip_ansi_plain_witness :
  strip_ansi (lit "1. Yes [y/N]?") = lit "1. Yes [y/N]?".
Proof. apply strip_ansi_plain. reflexivity. Defined.

(** X2: [strip_ansi] only takes characters out: what it returns is the
    text with some characters left out, in the same order, and is never
    longer. *)
Theorem strip_ansi_only_deletes (text : str) :
  subseq (strip_ansi text) text
  /\ (length (strip_ansi text) <= length text)%nat.
Proof.
  pose proof (sub_empty_subseq text 0) as H.
  split; [exact H|now apply subseq_length].
Qed.

(** X3: [strip_ansi] works line by line: it never takes a line feed out,
    and the lines of the cleaned text are the cleaned lines of the text. *)
Theorem strip_ansi_line_by_line (text : str) :
  split_nl (strip_ansi text) = map strip_ansi (split_nl text).
Proof.
  destruct (split_nl_lines text) as [F J].
  rewrite <- J at 1.
  apply strip_ansi_joined; [apply split_nl_nonempty|exact F].
Qed.

(** *** White space around a line *)

Lemma lstrip_head (s : str) (c : char) (r : str) :
  lstrip s = c :: r -> isspace c = false.
Proof.
  induction s as [|d s IH]; simpl; [discriminate|].
  destruct (isspace d) eqn:E; [exact IH|]. now intros [= <- _].
Qed.

Lemma lstrip_fixed (s : str) :
  match s with c :: _ => isspace c = false | [] => True end -> lstrip s = s.
Proof. destruct s as [|c s]; simpl; [reflexivity|]. now intros ->. Qed.

Lemma lstrip_forallb (p : char -> bool) (s : str) :
  forallb p s = true -> forallb p (lstrip s) = true.
Proof.
  induction s as [|c s IH]; simpl; [reflexivity|].
  intros H. destruct (isspace c); [|exact H].
  apply andb_true_iff in H. now apply IH.
Qed.

Lemma forallb_rev' (p : char -> bool) (s : str) :
  forallb p (rev s) = forallb p s.
Proof.
  induction s as [|c s IH]; [reflexivity|].
  simpl. rewrite forallb_app, IH. simpl. rewrite andb_true_r. apply andb_comm.
Qed.

Lemma strip_forallb (p : char -> bool) (s : str) :
  forallb p s = true -> forallb p (strip s) = true.
Proof.
  intros H. unfold strip, rstrip.
  rewrite forallb_rev'. apply lstrip_forallb.
  rewrite forallb_rev'. now apply lstrip_forallb.
Qed.

Lemma lstrip_keeps_last (s : str) (c : char) :
  isspace c = false -> exists u, lstrip (s ++ [c]) = u ++ [c].
Proof.
  intros Hc. induction s as [|d s IH]; simpl.
  - rewrite Hc. now exists [].
  - destruct (isspace d); [exact IH|]. now exists (d :: s).
Qed.

Lemma rstrip_fixed (u : str) (c : char) :
  isspace c = false -> rstrip (u ++ [c]) = u ++ [c].
Proof.
  intros Hc. unfold rstrip. rewrite rev_unit. simpl. rewrite Hc.
  change (c :: rev u) with ([c] ++ rev u).
  now rewrite rev_app_distr, rev_involutive.
Qed.

(** the last character of a stripped line is no white space *)
Lemma strip_last (s u : str) (c : char) :
  strip s = u ++ [c] -> isspace c = false.
Proof.
  unfold strip, rstrip. intros H.
  apply (f_equal (@rev char)) in H.
  rewrite rev_involutive, rev_unit in H.
  exact (lstrip_head _ _ _ H).
Qed.

Lemma strip_ends_with (s : str) (c : char) :
  isspace c = false ->
  exists u, strip (s ++ [c]) = u ++ [c]
            /\ match u ++ [c] with d :: _ => isspace d = false | [] => True end.
Proof.
  intros Hc. destruct (lstrip_keeps_last s c Hc) as (u & E).
  exists u. unfold strip. rewrite E, (rstrip_fixed u c Hc). split; [reflexivity|].
  rewrite <- E. destruct (lstrip (s ++ [c])) as [|d r] eqn:F; [exact I|].
  exact (lstrip_head _ _ _ F).
Qed.

Lemma lstrip_suffix (s : str) :
  exists pre, s = pre ++ lstrip s.
Proof.
  induction s as [|c s (pre & IH)]; [now exists []|].
  simpl. destruct (isspace c); [|now exists []].
  exists (c :: pre). simpl. now f_equal.
Qed.

Lemma rstrip_prefix (s : str) : exists post, s = rstrip s ++ post.
Proof.
  destruct (lstrip_suffix (rev s)) as (pre & H).
  exists (rev pre). unfold rstrip.
  rewrite <- rev_app_distr, <- H. now rewrite rev_involutive.
Qed.

Lemma strip_idem (s : str) : strip (strip s) = strip s.
Proof.
  destruct (strip s) as [|d v] eqn:E; [reflexivity|].
  assert (Hd : isspace d = false).
  { unfold strip in E. destruct (rstrip_prefix (lstrip s)) as (post & P).
    rewrite E in P. simpl in P. exact (lstrip_head _ _ _ P). }
  destruct (@exists_last _ (d :: v)) as (u & c & L); [discriminate|].
  assert (Hc : isspace c = false)
    by (apply (strip_last s u); now rewrite E).
  unfold strip. rewrite (lstrip_fixed (d :: v) Hd), L.
  now apply rstrip_fixed.
Qed.

(** *** What an option line is made of *)

Lemma at_end_cases (rest : str) : at_end rest = true -> rest = [] \/ rest = [LF].
Proof.
  destruct rest as [|c [|d r]]; simpl; auto; [|discriminate].
  intros H. apply N.eqb_eq in H. subst. now right.
Qed.

Section More.
Context {U : Unicode}.

(** X4: a line is taken for an option only if it reads: any markers and
    white space, one decimal digit or more, a full stop, white space, and
    a label of one character or more up to the end of the line; the
    digits and the label are the two groups. *)
Theorem option_line_anatomy (line digits label : str) :
  option_pattern line = Some (digits, label) ->
  exists markers spaces rest,
    line = markers ++ digits ++ 46 :: spaces ++ label ++ rest
    /\ forallb is_marker markers = true
    /\ digits <> [] /\ forallb isdecimal digits = true
    /\ spaces <> [] /\ forallb isspace spaces = true
    /\ label <> [] /\ no_LF label = true
    /\ (rest = [] \/ rest = [LF]).
Proof.
  unfold option_pattern. intros H.
  apply star_elim in H. destruct H as (mk & r1 & -> & Hmk & H).
  apply plus_elim in H. destruct H as (ds & r2 & -> & Nds & Hds & H).
  apply chr_elim in H. destruct H as (r3 & -> & H).
  apply plus_elim in H. destruct H as (ws & r4 & -> & Nws & Hws & H).
  apply plus_elim in H. destruct H as (lb & r5 & -> & Nlb & Hlb & H).
  destruct (at_end r5) eqn:E; [|discriminate]. injection H as <- <-.
  exists mk, ws, r5. repeat split; auto using at_end_cases.
Qed.

Lemma option_pattern_label (line digits label : str) :
  option_pattern line = Some (digits, label) ->
  exists before rest,
    line = before ++ label ++ rest /\ label <> [] /\ no_LF label = true
    /\ (rest = [] \/ rest = [LF]).
Proof.
  unfold option_pattern. intros H.
  apply star_elim in H. destruct H as (mk & r1 & -> & _ & H).
  apply plus_elim in H. destruct H as (ds & r2 & -> & _ & _ & H).
  apply chr_elim in H. destruct H as (r3 & -> & H).
  apply plus_elim in H. destruct H as (ws & r4 & -> & _ & _ & H).
  apply plus_elim in H. destruct H as (lb & r5 & -> & Nlb & Hlb & H).
  destruct (at_end r5) eqn:E; [|discriminate]. injection H as <- <-.
  exists (mk ++ ds ++ 46 :: ws), r5.
  repeat split; auto using at_end_cases.
  repeat (rewrite <- app_assoc; simpl). reflexivity.
Qed.

Lemma line_option_label (raw : str) (o : option_entry) :
  In o (line_options raw) ->
  opt_label o <> [] /\ strip (opt_label o) = opt_label o
  /\ no_LF (opt_label o) = true.
Proof.
  unfold line_options.
  destruct (option_pattern (strip raw)) as [[ds lb]|] eqn:E; [|contradiction].
  intros [<-|[]]. simpl.
  destruct (option_pattern_label _ _ _ E)
    as (pre & rest & L & Nlb & Hlb & Hrest).
  destruct (exists_last Nlb) as (l' & c & ->).
  assert (Hc : isspace c = false).
  { destruct Hrest as [-> | ->].
    - rewrite app_nil_r in L.
      apply (strip_last raw (pre ++ l')).
      rewrite L. now rewrite <- app_assoc.
    - exfalso.
      assert (isspace LF = false); [|discriminate].
      apply (strip_last raw (pre ++ l' ++ [c])).
      rewrite L. now rewrite <- !app_assoc. }
  destruct (strip_ends_with l' c Hc) as (u & Eu & Hd).
  rewrite Eu. repeat split.
  - now destruct u.
  - unfold strip. rewrite (lstrip_fixed _ Hd). now apply rstrip_fixed.
  - rewrite <- Eu. now apply strip_forallb.
Qed.

(** X5: every option of a detected prompt has a label of at least one
    character, with no white space before or after it and no line feed in
    it. *)
Theorem option_labels_trimmed (text : str) (p : prompt) (o : option_entry) :
  detect_permission_prompt text = Some p -> In o (options p) ->
  opt_label o <> [] /\ strip (opt_label o) = opt_label o
  /\ no_LF (opt_label o) = true.
Proof.
  intros Hp Ho. rewrite (detected_options text Hp) in Ho.
  apply in_flat_map in Ho. destruct Ho as (raw & _ & Ho).
  now apply line_option_label with raw.
Qed.

(** *** The question and the options of a text *)

Lemma find_app' (A : Type) (p : A -> bool) (x y : list A) :
  find p (x ++ y) = match find p x with Some a => Some a | None => find p y end.
Proof.
  induction x as [|a x IH]; [reflexivity|].
  simpl. now destruct (p a).
Qed.

Lemma find_existsb (A : Type) (p : A -> bool) (x : list A) :
  existsb p x = match find p x with Some _ => true | None => false end.
Proof.
  induction x as [|a x IH]; [reflexivity|].
  simpl. now destruct (p a).
Qed.

Lemma existsb_rev' (A : Type) (p : A -> bool) (x : list A) :
  existsb p (rev x) = existsb p x.
Proof.
  induction x as [|a x IH]; [reflexivity|].
  simpl. rewrite existsb_app, IH. simpl. rewrite orb_false_r. apply orb_comm.
Qed.

Lemma scan_question_last (lines : list str) :
  forall acc,
    fst (fold_left scan_line lines acc)
    = match find asks (rev lines) with
      | Some l => Some (strip l)
      | None => fst acc
      end.
Proof.
  induction lines as [|l lines IH] using rev_ind; intros acc; [reflexivity|].
  rewrite fold_left_app, rev_unit. cbn [fold_left find].
  unfold scan_line at 1. cbn [fst]. unfold asks at 1.
  destruct (is_question (strip l)); [reflexivity|apply IH].
Qed.

Lemma question_line_nonempty (l : str) :
  asks l = true -> question_or_default (Some (strip l)) = strip l.
Proof.
  unfold asks, is_question. intros H. apply andb_true_iff in H.
  destruct H as [_ H]. now destruct (strip l).
Qed.

Lemma detected (text : str) (p : prompt) :
  detect_permission_prompt text = Some p ->
  let lines := split_nl (strip_ansi text) in
  (2 <= length (flat_map line_options lines))%nat
  /\ options p = flat_map line_options lines
  /\ question p = match find asks (rev lines) with
                  | Some l => strip l
                  | None => lit "Permission required"
                  end.
Proof.
  intros Hp lines. pose proof (detected_options text Hp) as Ho.
  fold lines in Ho. revert Hp. unfold detect_permission_prompt.
  fold lines. rewrite scan_options, scan_question_last. cbn [fst snd app].
  destruct (Nat.leb_spec 2 (length (flat_map line_options lines)));
    [|discriminate].
  intros [= <-]. cbn [question options]. repeat split; auto.
  destruct (find asks (rev lines)) as [l|] eqn:F; [|reflexivity].
  apply find_some in F. now apply question_line_nonempty.
Qed.

Lemma detect_from_lines (text : str) :
  let lines := split_nl (strip_ansi text) in
  (2 <= length (flat_map line_options lines))%nat ->
  detect_permission_prompt text
  = Some {| question := match find asks (rev lines) with
                        | Some l => strip l
                        | None => lit "Permission required"
                        end;
            options := flat_map line_options lines |}.
Proof.
  intros lines H. unfold detect_permission_prompt. fold lines.
  rewrite scan_options, scan_question_last. cbn [fst snd app].
  destruct (Nat.leb_spec 2 (length (flat_map line_options lines))); [|lia].
  f_equal. f_equal.
  destruct (find asks (rev lines)) as [l|] eqn:F; [|reflexivity].
  apply find_some in F. now apply question_line_nonempty.
Qed.

(** X6: the question of a detected prompt is the last line of the cleaned
    text, white space around it taken off, that passes the question test,
    and ['Permission required'] when no line does; so it either is that
    placeholder or contains a question mark. *)
Theorem question_is_last_asked (text : str) (p : prompt) :
  detect_permission_prompt text = Some p ->
  question p
  = match find (fun l => is_question (strip l))
                (rev (split_nl (strip_ansi text))) with
    | Some l => strip l
    | None => lit "Permission required"
    end
  /\ (question p = lit "Permission required"
      \/ existsb (N.eqb 63) (question p) = true).
Proof.
  intros Hp. destruct (detected text p Hp) as (_ & _ & Q).
  split; [exact Q|]. rewrite Q. unfold asks.
  destruct (find _ _) as [l|] eqn:F; [|now left].
  apply find_some in F. destruct F as [_ F].
  unfold is_question in F. apply andb_true_iff in F. now right.
Qed.

(** X7: two prompts that reach the detector in one text, one after the
    other, come out as one: its options are the options of the first
    followed by those of the second, and its question is that of the
    second if the second has a question line, else that of the first. *)
Theorem prompts_merge (a b : str) (pa pb : prompt) :
  detect_permission_prompt a = Some pa ->
  detect_permission_prompt b = Some pb ->
  detect_permission_prompt (a ++ LF :: b)
  = Some {| question :=
              if existsb (fun l => is_question (strip l))
                         (split_nl (strip_ansi b))
              then question pb else question pa;
            options := options pa ++ options pb |}.
Proof.
  intros Ha Hb.
  destruct (detected a pa Ha) as (La & Oa & Qa).
  destruct (detected b pb Hb) as (Lb & Ob & Qb).
  rewrite detect_from_lines;
    rewrite strip_ansi_join, split_nl_join, flat_map_app;
    [|rewrite length_app; lia].
  rewrite rev_app_distr, find_app', Oa, Ob, Qa, Qb.
  f_equal. f_equal.
  change (fun l => is_question (strip l)) with asks.
  rewrite <- existsb_rev', find_existsb.
  now destruct (find asks (rev (split_nl (strip_ansi b)))).
Qed.

(** X8: control sequences of the forms [strip_ansi] removes make no
    difference to detection: text made of runs without ESC and such
    sequences gives what the runs alone give. *)
Theorem detection_ignores_sequences (ps : list piece) :
  forallb well_formed ps = true ->
  detect_permission_prompt (render_all ps)
  = detect_permission_prompt (plain_text ps).
Proof.
  intros H. unfold detect_permission_prompt.
  rewrite (strip_ansi_render ps H).
  pose proof (plain_text_no_esc ps H) as E.
  assert (P : strip_ansi (plain_text ps) = plain_text ps).
  { generalize (plain_text ps) E. intros text. clear.
    intros H.
    assert (P : forallb (is_not ESC) text = true).
    { induction text as [|c s IH]; [reflexivity|].
      cbn [existsb forallb] in *. apply orb_false_iff in H.
      destruct H as [Hc Hs].
      unfold is_not. rewrite N.eqb_sym, Hc. now apply IH. }
    pose proof (sub_empty_plain text [] P) as E.
    cbn [sub_empty] in E. rewrite !app_nil_r in E. exact E. }
  now rewrite P.
Qed.

Lemma scan_line_stripped (acc : option str * list option_entry) (raw : str) :
  scan_line acc raw = scan_line acc (strip raw).
Proof. unfold scan_line. now rewrite strip_idem. Qed.

Lemma fold_scan_stripped (lines : list str) :
  forall acc,
    fold_left scan_line lines acc = fold_left scan_line (map strip lines) acc.
Proof.
  induction lines as [|l lines IH]; intros acc; [reflexivity|].
  simpl. now rewrite <- scan_line_stripped, IH.
Qed.

(** X22: white space at the ends of the lines makes no difference to
    detection: two texts whose cleaned lines are the same once stripped,
    as with lines ended by carriage return and line feed instead of line
    feed alone, give the same answer. *)
Theorem detection_up_to_white_space (a b : str) :
  map strip (split_nl (strip_ansi a)) = map strip (split_nl (strip_ansi b)) ->
  detect_permission_prompt a = detect_permission_prompt b.
Proof.
  intros H. unfold detect_permission_prompt.
  now rewrite (fold_scan_stripped (split_nl (strip_ansi a))), H,
    <- fold_scan_stripped.
Qed.

End More.

Lemma option_line_anatomy_witness :
  exists markers spaces rest,
    lit "  12.  allow once"
    = markers ++ lit "12" ++ 46 :: spaces ++ lit "allow once" ++ rest
    /\ forallb is_marker markers = true
    /\ lit "12" <> [] /\ forallb (@isdecimal ascii_unicode) (lit "12") = true
    /\ spaces <> [] /\ forallb isspace spaces = true
    /\ lit "allow once" <> [] /\ no_LF (lit "allow once") = true
    /\ (rest = [] \/ rest = [LF]).
Proof.
  apply (@option_line_anatomy ascii_unicode). reflexivity.
Defined.

Lemma option_labels_trimmed_witness :
  opt_label Examples.custom_option <> []
  /\ strip (opt_label Examples.custom_option) = opt_label Examples.custom_option
  /\ no_LF (opt_label Examples.custom_option) = true.
Proof.
  apply (@option_labels_trimmed ascii_unicode Examples.three_options
           {| question := lit "Permission required";
              options := options Examples.proceed_event
                         ++ [Examples.custom_option] |}).
  - reflexivity.
  - simpl. right. right. now left.
Defined.

Lemma detection_up_to_white_space_witness :
  @detect_permission_prompt ascii_unicode
    (lit "Proceed?" ++ [13; LF] ++ lit "  1. Yes" ++ [13; LF]
     ++ lit "  2. No" ++ [13])
  = @detect_permission_prompt ascii_unicode
      (lit "Proceed?" ++ [LF] ++ lit "1. Yes" ++ [LF] ++ lit "2. No").
Proof.
  apply (@detection_up_to_white_space ascii_unicode). reflexivity.
Defined.

Lemma question_is_last_asked_witness :
  question Examples.proceed_event = lit "Do you want to proceed?"
  /\ existsb (N.eqb 63) (question Examples.proceed_event) = true.
Proof.
  pose proof (proj1 (@question_is_last_asked ascii_unicode
                       Examples.drawn_prompt Examples.proceed_event eq_refl)).
  split; [exact H|reflexivity].
Defined.

Lemma prompts_merge_witness :
  @detect_permission_prompt ascii_unicode
    (Examples.drawn_prompt ++ LF :: Examples.three_options)
  = Some {| question := lit "Do you want to proceed?";
            options := options Examples.proceed_event
                       ++ options Examples.proceed_event
                       ++ [Examples.custom_option] |}.
Proof.
  exact (@prompts_merge ascii_unicode Examples.drawn_prompt
           Examples.three_options Examples.proceed_event _ eq_refl eq_refl).
Defined.

Lemma detection_ignores_sequences_witness :
  @detect_permission_prompt ascii_unicode (render_all Examples.drawn_pieces)
  = @detect_permission_prompt ascii_unicode
      (plain_text Examples.drawn_pieces).
Proof.
  exact (@detection_ignores_sequences ascii_unicode Examples.drawn_pieces
           eq_refl).
Defined.

End DetectorMore.

(* ================================================================== *)
(** ** More about the relay *)

Module RelayMore.
Import PyStr Detector Sys Relay Turns RelayFacts.

Unset Implicit Arguments.

#[local] Arguments detect_permission_prompt : simpl never.
#[local] Arguments cap : simpl never.
#[local] Arguments exit_code_of : simpl never.

Lemma holds_seq P (m1 m2 : step) :
  composes P -> holds P m1 -> holds P m2 -> holds P (seq m1 m2).
Proof.
  intros HP H1 H2 st c st' ev. unfold seq.
  destruct (m1 st) as [[c1 st1] ev1] eqn:E1. specialize (H1 _ _ _ _ E1).
  destruct c1.
  - destruct (m2 st1) as [[c2 st2] ev2] eqn:E2. specialize (H2 _ _ _ _ E2).
    intros [= <- <- <-]. now apply HP with st1.
  - now intros [= <- <- <-].
  - now intros [= <- <- <-].
Qed.

Section WithDecoder.
Context {U : Unicode}.
Variable decode : bytes -> str.

Lemma holds_body P (it : iteration) :
  composes P ->
  (forall st r, returns r = true -> P st Next st [Select r]) ->
  (forall st, P st (Raise Interrupt) st [Select KeyboardInterrupt]) ->
  (forall st, P st Next st []) ->
  holds P (relay_stdin it) -> holds P (relay_master decode it) ->
  holds P (poll_child it) ->
  holds P (body decode it).
Proof.
  intros HP Hs Hi Hn H1 H2 H3. unfold body.
  assert (Skip : holds P (ret Next [])) by (intros st c st' ev [= <- <- <-]; auto).
  destruct (sel it) as [[stdin_ready master_ready]| |].
  - apply holds_seq;
      [assumption|intros st c st' ev [= <- <- <-]; now apply Hs|].
    apply holds_seq; [assumption|now destruct stdin_ready|].
    apply holds_seq; [assumption|now destruct master_ready|assumption].
  - intros st c st' ev [= <- <- <-]; now apply Hs.
  - intros st c st' ev [= <- <- <-]; auto.
Qed.

Lemma holds_loop P (script : list iteration) :
  composes P -> (forall st, P st Next st []) ->
  (forall it, holds P (body decode it)) ->
  holds P (loop decode script).
Proof.
  intros HP Hn Hb. induction script as [|it script IH]; simpl.
  - intros st c st' ev [= <- <- <-]; auto.
  - apply holds_seq; auto.
Qed.

Lemma detect_nil : detect_permission_prompt [] = None.
Proof.
  unfold detect_permission_prompt.
  change (split_nl (strip_ansi [])) with [@nil char].
  cbn [fold_left]. unfold scan_line.
  change (strip []) with (@nil char).
  change (option_pattern []) with (@None (str * str)).
  unfold is_question. cbn [existsb fst snd]. rewrite andb_false_r.
  reflexivity.
Qed.

Lemma detected_ok (text : str) (p : prompt) :
  detect_permission_prompt text = Some p ->
  ((2 <=? length (options p))%nat
   && match question p with [] => false | _ :: _ => true end) = true.
Proof.
  unfold detect_permission_prompt.
  destruct (Nat.leb _ _) eqn:E; [|discriminate].
  intros [= <-]. cbn [options question]. rewrite E.
  unfold question_or_default. now destruct (fst _) as [[|]|].
Qed.

Lemma kept_composes : composes kept.
Proof.
  intros st st1 st2 c ev1 ev2 (_ & N1 & O1 & B1) (F2 & N2 & O2 & B2).
  destruct (N1 eq_refl) as [F1 X1].
  unfold kept. rewrite existsb_app, forallb_app, observed_exits_app,
    F1, X1, O1, O2. simpl. repeat split.
  - now apply F2.
  - now apply F2.
  - now apply N2.
  - now apply N2.
  - intros H Hc. apply B2; [|assumption]. apply B1; [assumption|discriminate].
Qed.

Ltac kleaf :=
  intros [= <- <- <-]; unfold kept; simpl;
  repeat split; auto; try discriminate; try (intros; discriminate).

Lemma kept_relay_stdin (it : iteration) : holds kept (relay_stdin it).
Proof.
  intros st c st' ev. unfold relay_stdin, ret.
  destruct (stdin_read it) as [[|b data]| |];
    [|destruct (master_write it)| |]; kleaf.
Qed.

Lemma kept_feed (it : iteration) (data : bytes) :
  holds kept (feed decode it data).
Proof.
  intros st c st' ev. unfold feed, send_prompt_to_fd, set_buffer, seq, ret.
  destruct (detect_permission_prompt _) as [p|] eqn:D.
  - pose proof (detected_ok _ _ D) as Hp.
    destruct (prompt_fstat it) as [[]| |];
      [destruct (prompt_write it) as [[]| |]| |];
      intros [= <- <- <-]; unfold kept; simpl; simpl in Hp; rewrite ?Hp;
      repeat split; auto using detect_nil; try discriminate;
      try (intros; discriminate); try (intros; congruence).
  - intros [= <- <- <-]; unfold kept; simpl.
    repeat split; auto; discriminate.
Qed.

Lemma kept_mirror (it : iteration) (data : bytes) :
  holds kept (mirror it data).
Proof.
  intros st c st' ev. unfold mirror, ret.
  destruct (mirror_fstat it) as [[]| |];
    [destruct (mirror_write it) as [[]| |]| |]; kleaf.
Qed.

Lemma kept_relay_master (it : iteration) :
  holds kept (relay_master decode it).
Proof.
  unfold relay_master.
  destruct (master_read it) as [[|b data]| |];
    try (intros st c st' ev; unfold ret; kleaf).
  apply holds_seq; [apply kept_composes| |].
  - intros st c st' ev. unfold ret. destruct (stdout_write it); kleaf.
  - apply holds_seq; [apply kept_composes|apply kept_mirror|apply kept_feed].
Qed.

Lemma kept_poll_child (it : iteration) : holds kept (poll_child it).
Proof.
  intros st c st' ev. unfold poll_child.
  destruct (poll it) as [[p status]| |]; [|kleaf|kleaf].
  destruct (p =? 0)%Z eqn:Ep; intros [= <- <- <-]; unfold kept; simpl;
    rewrite ?Ep; repeat split; auto; try discriminate.
Qed.

Lemma kept_loop (script : list iteration) : holds kept (loop decode script).
Proof.
  assert (Hn : forall st, kept st Next st [])
    by (intros st; unfold kept; simpl; repeat split; auto; discriminate).
  apply holds_loop; [apply kept_composes|exact Hn|].
  intros it. apply holds_body; auto using kept_composes, kept_relay_stdin,
    kept_relay_master, kept_poll_child;
    intros st; try intros r _; unfold kept; simpl; repeat split; auto;
    try discriminate; intros; congruence.
Qed.

Lemma exit_code_of_range (status : Z) :
  (0 <= exit_code_of status <= 255)%Z.
Proof.
  unfold exit_code_of, WEXITSTATUS. destruct (WIFEXITED status); [|lia].
  assert (E : Z.land (Z.shiftr status 8) 255
              = (Z.shiftr status 8 mod 2 ^ 8)%Z)
    by (change 255%Z with (Z.ones 8); apply Z.land_ones; lia).
  rewrite E.
  assert (0 <= Z.shiftr status 8 mod 2 ^ 8 < 2 ^ 8)%Z
    by (apply Z.mod_pos_bound; lia).
  change (2 ^ 8)%Z with 256%Z in *. lia.
Qed.

Lemma in_loop_event (e : event) (tty : bool) (ev rest : list event) :
  in_loop e = true -> forallb outside_loop rest = true ->
  In e (before_loop tty ++ ev ++ rest) -> In e ev.
Proof.
  intros He Hr H.
  assert (Out : forall l, forallb outside_loop l = true -> ~ In e l).
  { intros l Hl Hin. rewrite forallb_forall in Hl. specialize (Hl e Hin).
    unfold outside_loop in Hl. now rewrite He in Hl. }
  apply in_app_or in H. destruct H as [H|H].
  - now apply Out in H; [|apply before_loop_outside].
  - apply in_app_or in H. destruct H as [H|H]; [assumption|].
    now apply Out in H.
Qed.

Lemma existsb_in (e : event) (p : event -> bool) (ev : list event) :
  In e ev -> p e = true -> existsb p ev = true.
Proof. intros H Hp. apply existsb_exists. now exists e. Qed.

(** X9: whenever the wrapper calls [sys.exit], the status it passes is
    between 0 and 255. *)
Theorem exit_code_is_a_byte (stdin_is_tty : bool) (script : list iteration)
  (h : aftermath) (code : Z) :
  snd (main decode stdin_is_tty script h) = SysExit code ->
  (0 <= code <= 255)%Z.
Proof.
  destruct (main_trace decode stdin_is_tty script h)
    as (c & st & ev & _ & Rel & ->).
  destruct Rel as (_ & _ & _ & _ & _ & _ & X). cbn [snd].
  assert (R : (0 <= exit_code st <= 255)%Z).
  { destruct c as [| |e].
    - destruct X as [-> _]. simpl. lia.
    - destruct X as [[-> _]|(s & _ & -> & _)];
        [simpl; lia|apply exit_code_of_range].
    - destruct X as [-> _]. simpl. lia. }
  unfold after_loop, on_interrupt.
  destruct c as [| |[|]]; try discriminate.
  - now intros [= <-].
  - destruct (kill_result h); try discriminate.
    destruct (wait_result h); try discriminate. now intros [= <-].
Qed.

(** X10: when a read from the controlling input or from the master side,
    or a write to the master side or to the primary output, raises
    [OSError], the wrapper exits with status 0, whatever became of the
    child. *)
Theorem io_failure_exits_zero (stdin_is_tty : bool)
  (script : list iteration) (h : aftermath) (e : event) :
  is_primary_failure e = true ->
  In e (fst (main decode stdin_is_tty script h)) ->
  snd (main decode stdin_is_tty script h) = SysExit 0.
Proof.
  intros He. destruct (main_trace decode stdin_is_tty script h)
    as (c & st & ev & E & Rel & ->).
  cbn [fst snd]. intros H.
  apply in_loop_event in H;
    [|now destruct e as [|? []|? ? []| | | | | | | | |]
     |apply after_loop_outside].
  destruct (kept_loop script _ _ _ _ E) as (F & _).
  destruct (F (existsb_in _ _ _ H He)) as [-> O].
  destruct Rel as (_ & _ & _ & _ & _ & _ & [[C _]|(s & O' & _)]).
  - simpl. now rewrite C.
  - now rewrite O in O'.
Qed.

(** X11: every record the wrapper writes to the prompt channel holds two
    options or more and a question of at least one character. *)
Theorem prompt_records_well_formed (stdin_is_tty : bool)
  (script : list iteration) (h : aftermath) (p : prompt) (r : result unit) :
  In (WritePrompt p r) (fst (main decode stdin_is_tty script h)) ->
  (2 <= length (options p))%nat /\ question p <> [].
Proof.
  destruct (main_trace decode stdin_is_tty script h)
    as (c & st & ev & E & _ & ->).
  cbn [fst]. intros H.
  apply in_loop_event in H; [|reflexivity|apply after_loop_outside].
  destruct (kept_loop script _ _ _ _ E) as (_ & _ & O & _).
  rewrite forallb_forall in O. specialize (O _ H). simpl in O.
  apply andb_true_iff in O. destruct O as [O Q].
  split; [now apply Nat.leb_le|]. now destruct (question p).
Qed.

(** X12: between two turns of the loop the buffer never holds text in
    which the detector finds a prompt: a prompt is taken out as soon as it
    is found.  (An interrupt that arrives while the record is written
    leaves it there.) *)
Theorem no_prompt_left_in_buffer (script : list iteration) c st ev :
  loop decode script initial = (c, st, ev) ->
  c <> Raise Interrupt ->
  detect_permission_prompt (output_buffer st) = None.
Proof.
  intros E Hc. destruct (kept_loop script _ _ _ _ E) as (_ & _ & _ & B).
  apply B; [apply detect_nil|assumption].
Qed.

Lemma split_after (e : event) (x y l1 l2 : list event) :
  x ++ y = l1 ++ e :: l2 -> ~ In e x -> exists y1, y = y1 ++ e :: l2.
Proof.
  revert l1. induction x as [|a x IH]; intros l1 H Hx.
  - now exists l1.
  - destruct l1 as [|b l1]; simpl in H; injection H as -> H.
    + exfalso. apply Hx. now left.
    + apply (IH l1 H). intros Hin. apply Hx. now right.
Qed.

(** X13: once the terminal mode is restored or the master descriptor is
    closed, the wrapper makes no further call of the loop: no select, no
    read, no write, no probe, no poll. *)
Theorem nothing_after_cleanup (stdin_is_tty : bool)
  (script : list iteration) (h : aftermath) (e : event)
  (l1 l2 : list event) :
  e = Tcsetattr \/ e = Close Master ->
  fst (main decode stdin_is_tty script h) = l1 ++ e :: l2 ->
  forallb outside_loop l2 = true.
Proof.
  intros He. destruct (main_trace decode stdin_is_tty script h)
    as (c & st & ev & _ & Rel & ->).
  cbn [fst]. intros H.
  apply split_after in H.
  - destruct H as (y1 & H). apply split_after in H.
    + destruct H as (y2 & H).
      pose proof (after_loop_outside stdin_is_tty c st h) as O.
      rewrite H, forallb_app in O. apply andb_true_iff in O.
      destruct O as [_ O]. simpl in O. apply andb_true_iff in O. tauto.
    + destruct Rel as (L & _). rewrite forallb_forall in L.
      intros Hin. specialize (L e Hin). now destruct He as [-> | ->].
  - intros Hin. destruct stdin_is_tty, He as [-> | ->]; simpl in Hin;
      intuition discriminate.
Qed.

(** X14: a turn whose [select] raises [OSError] makes no other call, not
    even the poll for the child: while [select] keeps failing the loop
    keeps turning, also when the child is gone. *)
Theorem select_failures_skip_the_poll (stdin_is_tty : bool)
  (script : list iteration) (h : aftermath) :
  Forall (fun it => sel it = OSError) script ->
  main decode stdin_is_tty script h
  = (before_loop stdin_is_tty ++ map (fun _ => Select OSError) script,
     Running).
Proof.
  intros H.
  assert (L : forall st, loop decode script st
                         = (Next, st, map (fun _ => Select OSError) script)).
  { induction H as [|it script Hit _ IH]; intros st; [reflexivity|].
    simpl. unfold seq, body. rewrite Hit. unfold ret. now rewrite IH. }
  unfold main. rewrite L. simpl. now rewrite app_nil_r.
Qed.

(** *** The loop stops at once *)

Lemma in_removelast (x : event) (l : list event) :
  In x (removelast l) -> In x l.
Proof.
  induction l as [|a l IH]; [contradiction|].
  simpl. destruct l as [|b l]; [contradiction|].
  intros [->|H]; [now left|right; now apply IH].
Qed.

Lemma stops_composes : composes stops_at_once.
Proof.
  intros st st1 st2 c ev1 ev2 (_ & N1) (L2 & N2).
  specialize (N1 eq_refl). unfold stops_at_once.
  rewrite existsb_app, N1. simpl. split; [|exact N2].
  destruct ev2 as [|e ev2].
  - rewrite app_nil_r.
    destruct (existsb ends_loop (removelast ev1)) eqn:E; [|reflexivity].
    apply existsb_exists in E. destruct E as (x & Hx & Ex).
    assert (In x ev1) by now apply in_removelast.
    assert (existsb ends_loop ev1 = true)
      by (apply existsb_exists; now exists x).
    congruence.
  - rewrite removelast_app by discriminate.
    now rewrite existsb_app, N1.
Qed.

Ltac sleaf :=
  intros [= <- <- <-]; unfold stops_at_once; simpl;
  repeat split; auto; try discriminate; try (intros; discriminate).

Lemma stops_relay_stdin (it : iteration) :
  holds stops_at_once (relay_stdin it).
Proof.
  intros st c st' ev. unfold relay_stdin, ret.
  destruct (stdin_read it) as [[|b data]| |];
    [|destruct (master_write it)| |]; sleaf.
Qed.

Lemma stops_relay_master (it : iteration) :
  holds stops_at_once (relay_master decode it).
Proof.
  unfold relay_master.
  destruct (master_read it) as [[|b data]| |];
    try (intros st c st' ev; unfold ret; sleaf).
  apply holds_seq; [apply stops_composes| |].
  - intros st c st' ev. unfold ret. destruct (stdout_write it); sleaf.
  - apply holds_seq; [apply stops_composes| |].
    + intros st c st' ev. unfold mirror, ret.
      destruct (mirror_fstat it) as [[]| |];
        [destruct (mirror_write it) as [[]| |]| |]; sleaf.
    + intros st c st' ev.
      unfold feed, send_prompt_to_fd, set_buffer, seq, ret.
      destruct (detect_permission_prompt _); [|sleaf].
      destruct (prompt_fstat it) as [[]| |];
        [destruct (prompt_write it) as [[]| |]| |]; sleaf.
Qed.

Lemma stops_poll_child (it : iteration) : holds stops_at_once (poll_child it).
Proof.
  intros st c st' ev. unfold poll_child.
  destruct (poll it) as [[p status]| |]; [|sleaf|sleaf].
  destruct (p =? 0)%Z eqn:Ep; intros [= <- <- <-];
    unfold stops_at_once; simpl; rewrite ?Ep; repeat split; auto;
    discriminate.
Qed.

Lemma stops_loop (script : list iteration) :
  holds stops_at_once (loop decode script).
Proof.
  apply holds_loop; [apply stops_composes|now split|].
  intros it. apply holds_body; auto using stops_composes, stops_relay_stdin,
    stops_relay_master, stops_poll_child;
    intros st; try intros r Hr; unfold stops_at_once; simpl;
    repeat split; auto; try discriminate; now destruct r as [[]| |].
Qed.

Lemma ends_loop_in_loop (e : event) : ends_loop e = true -> in_loop e = true.
Proof. now destruct e. Qed.

(** X23: the loop stops at once: after a read that met the end of its
    stream, a read or a write of the relay proper that raised [OSError],
    a poll that saw the child gone, or a call on which the interrupt
    arrived, the wrapper makes no further call of the loop; what the
    other side still holds is not read. *)
Theorem loop_stops_at_once (stdin_is_tty : bool) (script : list iteration)
  (h : aftermath) (e : event) (l1 l2 : list event) :
  ends_loop e = true ->
  fst (main decode stdin_is_tty script h) = l1 ++ e :: l2 ->
  forallb outside_loop l2 = true.
Proof.
  intros He. destruct (main_trace decode stdin_is_tty script h)
    as (c & st & ev & E & _ & ->).
  cbn [fst]. intros H.
  pose proof (after_loop_outside stdin_is_tty c st h) as O.
  pose proof (ends_loop_in_loop e He) as Hin.
  assert (Out : forall l, forallb outside_loop l = true -> ~ In e l).
  { intros l Hl Hl'. rewrite forallb_forall in Hl. specialize (Hl e Hl').
    unfold outside_loop in Hl. now rewrite Hin in Hl. }
  apply split_after in H; [|apply Out, before_loop_outside].
  destruct H as (y1 & H).
  apply app_eq_app in H. destruct H as (l & [[H1 H2]|[H1 H2]]).
  - destruct l as [|x l].
    + exfalso. simpl in H2. apply (Out _ O). rewrite <- H2. now left.
    + injection H2 as <- H2. subst l2.
      destruct (stops_loop script _ _ _ _ E) as (S & _).
      destruct l as [|x l]; [exact O|exfalso].
      rewrite H1 in S.
      change (y1 ++ e :: x :: l) with (y1 ++ [e] ++ x :: l) in S.
      rewrite app_assoc, removelast_app, existsb_app in S by discriminate.
      rewrite existsb_app in S. simpl in S. rewrite He in S.
      now rewrite orb_true_r in S.
  - exfalso. apply (Out _ O). rewrite H2. apply in_or_app. right. now left.
Qed.

(** X24: the wrapper signals the child and waits for it from the
    [except KeyboardInterrupt] clause only: on every other way out of the
    loop, the end of a stream and a failed read or write among them, it
    exits without a [kill] and without a [waitpid] other than the
    polls. *)
Theorem child_signalled_on_interrupt_only (stdin_is_tty : bool)
  (script : list iteration) (h : aftermath) c st ev :
  loop decode script initial = (c, st, ev) ->
  filter is_child_call (fst (main decode stdin_is_tty script h))
  = match c with
    | Raise Interrupt => snd (on_interrupt h)
    | _ => []
    end.
Proof.
  intros E. unfold main. rewrite E.
  destruct (loop_from_initial decode script _ _ _ E) as (L & _).
  destruct (after_loop stdin_is_tty c st h) as [ev' e] eqn:A. cbn [fst].
  rewrite !filter_app, (quiet_filter is_child_call ev)
    by (auto; intros []; simpl; congruence).
  unfold after_loop, on_interrupt, finally, before_loop in *.
  destruct c as [| |[|]], stdin_is_tty;
    try (injection A as <- <-; reflexivity);
    destruct (kill_result h); try destruct (wait_result h);
    injection A as <- <-; reflexivity.
Qed.

(** *** The optional channels and the relay proper *)

Lemma agree_refl r : agree r r.
Proof. repeat split. Qed.

Lemma agree_seq (m1 m1' m2 m2' : step) :
  (forall st, agree (m1 st) (m1' st)) ->
  (forall st, agree (m2 st) (m2' st)) ->
  forall st, agree (seq m1 m2 st) (seq m1' m2' st).
Proof.
  intros H1 H2 st. unfold seq. specialize (H1 st).
  destruct (m1 st) as [[c1 st1] ev1], (m1' st) as [[c1' st1'] ev1'].
  destruct H1 as (Hc & Hs & He). simpl in Hc, Hs, He. subst c1' st1'.
  destruct c1; [|now repeat split|now repeat split].
  specialize (H2 st1).
  destruct (m2 st1) as [[c2 st2] ev2], (m2' st1) as [[c2' st2'] ev2'].
  destruct H2 as (Hc & Hs & He2). simpl in Hc, Hs, He2. subst c2' st2'.
  repeat split. simpl. unfold primary in *.
  now rewrite !filter_app, He, He2.
Qed.

Lemma agree_mirror (a b : iteration) (data : bytes) :
  returns (mirror_fstat a) = true -> returns (mirror_write a) = true ->
  returns (mirror_fstat b) = true -> returns (mirror_write b) = true ->
  forall st, agree (mirror a data st) (mirror b data st).
Proof.
  intros A1 A2 B1 B2 st. unfold mirror, ret.
  destruct (mirror_fstat a) as [[]| |], (mirror_write a) as [[]| |],
    (mirror_fstat b) as [[]| |], (mirror_write b) as [[]| |];
    try discriminate; repeat split.
Qed.

Lemma agree_send (a b : iteration) (p : prompt) :
  returns (prompt_fstat a) = true -> returns (prompt_write a) = true ->
  returns (prompt_fstat b) = true -> returns (prompt_write b) = true ->
  forall st, agree (send_prompt_to_fd a p st) (send_prompt_to_fd b p st).
Proof.
  intros A1 A2 B1 B2 st. unfold send_prompt_to_fd, ret.
  destruct (prompt_fstat a) as [[]| |], (prompt_write a) as [[]| |],
    (prompt_fstat b) as [[]| |], (prompt_write b) as [[]| |];
    try discriminate; repeat split.
Qed.

Lemma agree_body (a b : iteration) :
  same_but_side a b -> forall st, agree (body decode a st) (body decode b st).
Proof.
  intros (E1 & E2 & E3 & E4 & E5 & E6 & A1 & A2 & A3 & A4 & B1 & B2 & B3 & B4).
  unfold body. rewrite E1.
  destruct (sel b) as [[stdin_ready master_ready]| |];
    try (intros; apply agree_refl).
  apply agree_seq; [intros; apply agree_refl|].
  apply agree_seq.
  { unfold relay_stdin. rewrite E2, E3. intros; apply agree_refl. }
  apply agree_seq.
  2:{ unfold poll_child. rewrite E6. intros; apply agree_refl. }
  destruct master_ready; [|intros; apply agree_refl].
  unfold relay_master. rewrite E4, E5.
  destruct (master_read b) as [[|x data]| |]; try (intros; apply agree_refl).
  apply agree_seq; [intros; apply agree_refl|].
  apply agree_seq; [now apply agree_mirror|].
  intros st. unfold feed.
  apply agree_seq; [intros; apply agree_refl|].
  destruct (detect_permission_prompt _); [|intros; apply agree_refl].
  apply agree_seq; [now apply agree_send|intros; apply agree_refl].
Qed.

Lemma agree_loop (s1 s2 : list iteration) :
  Forall2 same_but_side s1 s2 ->
  forall st, agree (loop decode s1 st) (loop decode s2 st).
Proof.
  induction 1 as [|a b s1 s2 Hab _ IH]; [intros; apply agree_refl|].
  simpl. apply agree_seq; [now apply agree_body|exact IH].
Qed.

(** X15: what the optional channels answer, short of an interrupt
    arriving on them, has no bearing on the relay: two runs that differ
    in these answers only make the same calls of the relay proper, in
    the same order, and end alike. *)
Theorem side_channels_do_not_interfere (stdin_is_tty : bool)
  (s1 s2 : list iteration) (h : aftermath) :
  Forall2 same_but_side s1 s2 ->
  snd (main decode stdin_is_tty s1 h) = snd (main decode stdin_is_tty s2 h)
  /\ primary (fst (main decode stdin_is_tty s1 h))
     = primary (fst (main decode stdin_is_tty s2 h)).
Proof.
  intros H. pose proof (agree_loop s1 s2 H initial) as A.
  unfold main.
  destruct (loop decode s1 initial) as [[c1 st1] ev1],
    (loop decode s2 initial) as [[c2 st2] ev2].
  destruct A as (Hc & Hs & He). simpl in Hc, Hs, He. subst c2 st2.
  destruct (after_loop stdin_is_tty c1 st1 h) as [ev' e].
  split; [reflexivity|]. simpl. unfold primary in *.
  now rewrite !filter_app, He.
Qed.

End WithDecoder.

Lemma loop_stops_at_once_witness :
  forallb outside_loop [Tcsetattr; Close Master; Exit 0] = true.
Proof.
  apply (@loop_stops_at_once ascii_unicode Examples.decode_ascii true
           [Examples.idle; Examples.input_closed; Examples.idle]
           Examples.child_collected
           (Read Stdin (Ok []))
           [Close Slave; Setraw; Select (Ok (false, false));
            Poll (Ok (0%Z, 0%Z)); Select (Ok (true, false))]
           [Tcsetattr; Close Master; Exit 0]); reflexivity.
Defined.

Lemma child_signalled_on_interrupt_only_witness :
  filter is_child_call
    (fst (@main ascii_unicode Examples.decode_ascii true
            [Examples.idle; Examples.input_closed] Examples.child_collected))
  = [].
Proof.
  apply (@child_signalled_on_interrupt_only ascii_unicode
           Examples.decode_ascii true
           [Examples.idle; Examples.input_closed] Examples.child_collected
           Break initial
           [Select (Ok (false, false)); Poll (Ok (0%Z, 0%Z));
            Select (Ok (true, false)); Read Stdin (Ok [])]).
  reflexivity.
Defined.

Lemma nothing_after_cleanup_witness :
  forallb outside_loop [Close Master; Exit 0] = true.
Proof.
  apply (@nothing_after_cleanup ascii_unicode Examples.decode_ascii true
           [Examples.idle; Examples.input_closed] Examples.child_collected
           Tcsetattr
           [Close Slave; Setraw; Select (Ok (false, false));
            Poll (Ok (0%Z, 0%Z)); Select (Ok (true, false));
            Read Stdin (Ok [])]
           [Close Master; Exit 0]).
  - now left.
  - reflexivity.
Defined.

Lemma select_failures_skip_the_poll_witness :
  @main ascii_unicode Examples.decode_ascii false
    [select_fails; select_fails] Examples.child_collected
  = ([Close Slave; Select OSError; Select OSError], Running).
Proof.
  apply (@select_failures_skip_the_poll ascii_unicode Examples.decode_ascii
           false [select_fails; select_fails] Examples.child_collected).
  repeat constructor.
Defined.

Lemma side_channels_do_not_interfere_witness :
  snd (@main ascii_unicode Examples.decode_ascii true
         [Examples.output [Byte.x68; Byte.x69]] Examples.child_collected)
  = snd (@main ascii_unicode Examples.decode_ascii true
           [output_unmirrored [Byte.x68; Byte.x69]] Examples.child_collected)
  /\ primary (fst (@main ascii_unicode Examples.decode_ascii true
         [Examples.output [Byte.x68; Byte.x69]] Examples.child_collected))
     = primary (fst (@main ascii_unicode Examples.decode_ascii true
           [output_unmirrored [Byte.x68; Byte.x69]]
           Examples.child_collected)).
Proof.
  apply (@side_channels_do_not_interfere ascii_unicode Examples.decode_ascii
           true [Examples.output [Byte.x68; Byte.x69]]
           [output_unmirrored [Byte.x68; Byte.x69]]
           Examples.child_collected).
  constructor; [|constructor].
  unfold same_but_side. repeat split.
Defined.

Lemma exit_code_is_a_byte_witness : (0 <= 3 <= 255)%Z.
Proof.
  apply (@exit_code_is_a_byte ascii_unicode Examples.decode_ascii true
           [Examples.idle; Examples.child_gone 768]
           Examples.child_collected 3%Z).
  reflexivity.
Defined.

Lemma io_failure_exits_zero_witness :
  snd (@main ascii_unicode Examples.decode_ascii true
         [Examples.idle; master_gone] Examples.child_collected)
  = SysExit 0.
Proof.
  apply (@io_failure_exits_zero ascii_unicode Examples.decode_ascii true
           [Examples.idle; master_gone] Examples.child_collected
           (Read Master OSError)).
  - reflexivity.
  - vm_compute. repeat (first [left; reflexivity | right]).
Defined.

Lemma prompt_records_well_formed_witness :
  (2 <= length (options Examples.proceed_event))%nat
  /\ question Examples.proceed_event <> [].
Proof.
  apply (@prompt_records_well_formed ascii_unicode Examples.decode_ascii
           false
           [output_unmirrored
              (map (fun c => match Byte.of_N c with
                             | Some b => b
                             | None => Byte.x00
                             end) Examples.drawn_prompt)]
           Examples.child_collected Examples.proceed_event OSError).
  vm_compute. repeat (first [left; reflexivity | right]).
Defined.

Lemma no_prompt_left_in_buffer_witness :
  @detect_permission_prompt ascii_unicode
    (cap (Examples.decode_ascii [Byte.x31; Byte.x2e; Byte.x20; Byte.x79]))
  = None.
Proof.
  apply (@no_prompt_left_in_buffer ascii_unicode Examples.decode_ascii
           [Examples.output [Byte.x31; Byte.x2e; Byte.x20; Byte.x79]]
           Next
           {| output_buffer :=
                cap (Examples.decode_ascii
                       [Byte.x31; Byte.x2e; Byte.x20; Byte.x79]);
              exit_code := 0 |}
           [Select (Ok (false, true));
            Read Master (Ok [Byte.x31; Byte.x2e; Byte.x20; Byte.x79]);
            Write Stdout [Byte.x31; Byte.x2e; Byte.x20; Byte.x79] (Ok tt);
            Fstat MirrorFd (Ok tt);
            Write MirrorFd [Byte.x31; Byte.x2e; Byte.x20; Byte.x79] (Ok tt);
            Poll (Ok (0%Z, 0%Z))]).
  - reflexivity.
  - discriminate.
Defined.

End RelayMore.

(* ================================================================== *)
(** ** The relay by descriptor numbers, the exit status, the cleanup *)

Module RelayEnds.
Import PyStr Detector Sys Relay Turns RelayFacts RelayMore.

Unset Implicit Arguments.

#[local] Arguments detect_permission_prompt : simpl never.
#[local] Arguments cap : simpl never.
#[local] Arguments exit_code_of : simpl never.

(** *** The calls that end the loop *)

Lemma outside_not_ending (l : list event) :
  forallb outside_loop l = true -> existsb ends_loop l = false.
Proof.
  induction l as [|a l IH]; [reflexivity|]. simpl. intros H.
  apply andb_true_iff in H. destruct H as [Ha Hl].
  rewrite (IH Hl), orb_false_r.
  destruct (ends_loop a) eqn:E; [|reflexivity].
  apply ends_loop_in_loop in E. unfold outside_loop in Ha.
  now rewrite E in Ha.
Qed.

Lemma outside_sites (l : list event) :
  forallb outside_loop l = true -> forallb site_ok l = true.
Proof.
  induction l as [|a l IH]; [reflexivity|]. simpl. intros H.
  apply andb_true_iff in H. destruct H as [Ha Hl].
  rewrite (IH Hl), andb_true_r. now destruct a.
Qed.

Lemma ended_composes : composes ended_by_call.
Proof.
  intros st st1 st2 c ev1 ev2 _ H2 Hc.
  rewrite existsb_app, (H2 Hc). apply orb_true_r.
Qed.

Lemma sites_compose : composes on_sites.
Proof.
  intros st st1 st2 c ev1 ev2 H1 H2. unfold on_sites in *.
  now rewrite forallb_app, H1, H2.
Qed.

Ltac eleaf :=
  intros [= <- <- <-]; unfold ended_by_call, on_sites; simpl;
  try reflexivity; intros Hc; try reflexivity; now elim Hc.

(** *** A trace read by descriptor numbers *)

Lemma outside_silent (pty : pty_pair) (n : nat) (l : list event) :
  forallb outside_loop l = true ->
  handed_to pty n l = [] /\ written_to pty n l = [] /\ read_from pty n l = [].
Proof.
  unfold handed_to, written_to, read_from.
  induction l as [|a l IH]; [repeat split|]. simpl. intros H.
  apply andb_true_iff in H. destruct H as [Ha Hl].
  destruct (IH Hl) as (-> & -> & ->).
  destruct a; try discriminate Ha; repeat split; reflexivity.
Qed.

Lemma chunks_inj (a b : list bytes) : map Chunk a = map Chunk b -> a = b.
Proof.
  revert b. induction a as [|x a IH]; intros [|y b]; try discriminate.
  - reflexivity.
  - simpl. intros [= -> H]. now rewrite (IH b H).
Qed.

Section Numbers.
Variable pty : pty_pair.
Hypothesis above : (2 < master_fd pty)%nat.
Hypothesis not_prompt : master_fd pty <> PROMPT_FD.
Hypothesis not_mirror : master_fd pty <> MIRROR_FD.

Ltac numbers :=
  unfold fileno, PROMPT_FD, MIRROR_FD in *;
  repeat match goal with
         | |- context [(?a =? ?b)%nat] =>
             destruct (Nat.eqb_spec a b); try lia
         end.

(** with the master side on a number of its own, the numbers tell the
    names apart *)
Lemma by_number (tr : list event) :
  forallb site_ok tr = true ->
  handed_to pty (master_fd pty) tr = map Chunk (chunks_written Master tr)
  /\ handed_to pty 1 tr = map Chunk (chunks_written Stdout tr)
  /\ handed_to pty MIRROR_FD tr = map Chunk (chunks_written MirrorFd tr)
  /\ read_from pty 0 tr = chunks_read Stdin tr
  /\ read_from pty (master_fd pty) tr = chunks_read Master tr.
Proof.
  unfold handed_to, read_from.
  induction tr as [|e tr IH]; [repeat split|].
  cbn [forallb flat_map]. intros H.
  apply andb_true_iff in H. destruct H as [He Ht].
  destruct (IH Ht) as (-> & -> & -> & -> & ->). clear IH Ht.
  destruct e as [|f r|f data r| | | | | | | | |]; try (repeat split; reflexivity).
  - destruct f; try discriminate He;
      destruct r as [[|b data]| |];
      cbn [read_by handed_by chunks_read chunks_written fd_eqb app];
      numbers; repeat split; reflexivity.
  - destruct f; try discriminate He;
      cbn [read_by handed_by chunks_read chunks_written fd_eqb app map];
      numbers; repeat split; reflexivity.
  - cbn [read_by handed_by chunks_read chunks_written fd_eqb app map].
    numbers. repeat split; reflexivity.
Qed.

Lemma quiet_event (n : nat) (e : event) :
  n = master_fd pty \/ n = 1%nat ->
  site_ok e = true -> ends_loop e = false ->
  handed_by pty n e = map Chunk (written_by pty n e).
Proof.
  intros Hn Hs He.
  destruct e as [|f r|f data r| | | | | | | | |]; try reflexivity.
  - destruct f; try discriminate Hs; destruct r as [[]| |];
      try discriminate He; cbn [handed_by written_by];
      destruct Hn as [->| ->]; numbers; reflexivity.
  - cbn [handed_by written_by]. destruct Hn as [->| ->]; numbers; reflexivity.
Qed.

Lemma any_event (n : nat) (e : event) :
  n = master_fd pty \/ n = 1%nat -> site_ok e = true ->
  exists lost,
    handed_by pty n e = map Chunk (written_by pty n e ++ lost)
    /\ (length lost <= 1)%nat.
Proof.
  intros Hn Hs.
  destruct e as [|f r|f data r| | | | | | | | |];
    try (exists []; split; [reflexivity|simpl; lia]).
  - destruct f; try discriminate Hs; destruct r as [[]| |];
      cbn [handed_by written_by];
      destruct Hn as [->| ->]; numbers;
      first [ exists []; split; [reflexivity|simpl; lia]
            | exists [data]; split; [reflexivity|simpl; lia] ].
  - cbn [handed_by written_by]. destruct Hn as [->| ->]; numbers;
      exists []; split; try reflexivity; simpl; lia.
Qed.

Lemma quiet_by_number (n : nat) (tr : list event) :
  n = master_fd pty \/ n = 1%nat ->
  forallb site_ok tr = true -> existsb ends_loop tr = false ->
  handed_to pty n tr = map Chunk (written_to pty n tr).
Proof.
  intros Hn. unfold handed_to, written_to.
  induction tr as [|e tr IH]; [reflexivity|].
  cbn [forallb existsb flat_map]. intros Hs He.
  apply andb_true_iff in Hs. destruct Hs as [Hs Hs'].
  apply orb_false_iff in He. destruct He as [He He'].
  now rewrite (quiet_event n e Hn Hs He), (IH Hs' He'), map_app.
Qed.

(** of the writes on the master side, or on the primary output, none but
    the last of the loop can have raised *)
Lemma last_may_fail (n : nat) (tr : list event) :
  n = master_fd pty \/ n = 1%nat ->
  forallb site_ok tr = true -> existsb ends_loop (removelast tr) = false ->
  exists lost,
    handed_to pty n tr = map Chunk (written_to pty n tr ++ lost)
    /\ (length lost <= 1)%nat.
Proof.
  intros Hn Hs He.
  destruct tr as [|e0 tr0]; [exists []; split; [reflexivity|simpl; lia]|].
  destruct (@exists_last _ (e0 :: tr0)) as (l & a & E); [discriminate|].
  rewrite E in *. clear E e0 tr0.
  rewrite removelast_last in He. rewrite forallb_app in Hs.
  apply andb_true_iff in Hs. destruct Hs as [Hl Ha].
  cbn [forallb] in Ha. rewrite andb_true_r in Ha.
  destruct (any_event n a Hn Ha) as (lost & Ea & Hlost).
  exists lost. split; [|exact Hlost].
  pose proof (quiet_by_number n l Hn Hl He) as Q.
  unfold handed_to, written_to in *.
  rewrite !flat_map_app. cbn [flat_map]. rewrite !app_nil_r.
  now rewrite Q, Ea, <- app_assoc, !map_app.
Qed.

End Numbers.

Section WithDecoder.
Context {U : Unicode}.
Variable decode : bytes -> str.

Lemma both_relay_stdin (it : iteration) :
  holds ended_by_call (relay_stdin it) /\ holds on_sites (relay_stdin it).
Proof.
  split; intros st c st' ev; unfold relay_stdin, ret;
    (destruct (stdin_read it) as [[|b data]| |];
     [|destruct (master_write it)| |]; eleaf).
Qed.

Lemma both_relay_master (it : iteration) :
  holds ended_by_call (relay_master decode it)
  /\ holds on_sites (relay_master decode it).
Proof.
  split; intros st c st' ev;
    unfold relay_master, mirror, feed, send_prompt_to_fd, set_buffer, seq,
      ret;
    (destruct (master_read it) as [[|b data]| |]; [eleaf| |eleaf|eleaf]);
    (destruct (stdout_write it); [|eleaf|eleaf]); simpl or_break; cbv iota;
    (destruct (mirror_fstat it) as [[]| |];
     [destruct (mirror_write it) as [[]| |]| |]; simpl or_pass;
     cbv iota beta; try eleaf);
    (destruct (detect_permission_prompt _); [|eleaf]);
    (destruct (prompt_fstat it) as [[]| |];
     [destruct (prompt_write it) as [[]| |]| |]; eleaf).
Qed.

Lemma both_poll_child (it : iteration) :
  holds ended_by_call (poll_child it) /\ holds on_sites (poll_child it).
Proof.
  split; intros st c st' ev; unfold poll_child;
    (destruct (poll it) as [[p status]| |]; [|eleaf|eleaf]);
    destruct (p =? 0)%Z eqn:Ep; intros [= <- <- <-];
    unfold ended_by_call, on_sites; simpl; rewrite ?Ep; try reflexivity;
    intros Hc; try reflexivity; now elim Hc.
Qed.

Lemma ended_loop (script : list iteration) :
  holds ended_by_call (loop decode script).
Proof.
  apply holds_loop; [apply ended_composes|intros st Hc; now elim Hc|].
  intros it. apply holds_body;
    [apply ended_composes|intros st r _ Hc; now elim Hc|now intros st _
    |intros st Hc; now elim Hc|apply both_relay_stdin
    |apply both_relay_master|apply both_poll_child].
Qed.

Lemma sites_loop (script : list iteration) :
  holds on_sites (loop decode script).
Proof.
  apply holds_loop; [apply sites_compose|reflexivity|].
  intros it. apply holds_body;
    [apply sites_compose|reflexivity|reflexivity|reflexivity
    |apply both_relay_stdin|apply both_relay_master|apply both_poll_child].
Qed.

(** the loop goes on exactly when no call of the run ends it *)
Lemma ending_call (stdin_is_tty : bool) (script : list iteration)
  (h : aftermath) c st ev :
  loop decode script initial = (c, st, ev) ->
  existsb ends_loop (before_loop stdin_is_tty ++ ev
                     ++ fst (after_loop stdin_is_tty c st h))
  = match c with Next => false | _ => true end.
Proof.
  intros E.
  rewrite !existsb_app,
    (outside_not_ending _ (before_loop_outside stdin_is_tty)),
    (outside_not_ending _ (after_loop_outside stdin_is_tty c st h)),
    orb_false_r. cbn [orb].
  destruct (stops_loop decode script _ _ _ _ E) as (_ & N).
  pose proof (ended_loop script _ _ _ _ E) as D. unfold ended_by_call in D.
  destruct c; [now apply N|apply D; discriminate|apply D; discriminate].
Qed.

Lemma main_sites (stdin_is_tty : bool) (script : list iteration)
  (h : aftermath) :
  forallb site_ok (fst (main decode stdin_is_tty script h)) = true.
Proof.
  destruct (main_trace decode stdin_is_tty script h)
    as (c & st & ev & E & _ & ->).
  cbn [fst]. rewrite !forallb_app.
  rewrite (outside_sites _ (before_loop_outside stdin_is_tty)),
    (outside_sites _ (after_loop_outside stdin_is_tty c st h)).
  now rewrite (sites_loop script _ _ _ _ E).
Qed.

Lemma main_last_may_fail (pty : pty_pair) (n : nat) (stdin_is_tty : bool)
  (script : list iteration) (h : aftermath) :
  (2 < master_fd pty)%nat ->
  master_fd pty <> PROMPT_FD -> master_fd pty <> MIRROR_FD ->
  n = master_fd pty \/ n = 1%nat ->
  let tr := fst (main decode stdin_is_tty script h) in
  exists lost,
    handed_to pty n tr = map Chunk (written_to pty n tr ++ lost)
    /\ (length lost <= 1)%nat.
Proof.
  intros H2 H3 H4 Hn.
  destruct (main_trace decode stdin_is_tty script h)
    as (c & st & ev & E & _ & ->).
  cbn [fst].
  destruct (outside_silent pty n _ (before_loop_outside stdin_is_tty))
    as (B1 & B2 & _).
  destruct (outside_silent pty n _ (after_loop_outside stdin_is_tty c st h))
    as (A1 & A2 & _).
  destruct (stops_loop decode script _ _ _ _ E) as (S & _).
  destruct (last_may_fail pty H2 H3 H4 n ev Hn (sites_loop script _ _ _ _ E) S)
    as (lost & El & Hl).
  exists lost. split; [|exact Hl].
  unfold handed_to, written_to in *.
  rewrite !flat_map_app, B1, B2, A1, A2, !app_nil_r. exact El.
Qed.

(** *** The claims about the relay *)

(** C1, as the source has it.  Take a run in which the master side has a
    descriptor number of its own, above the standard streams and neither
    of the two numbers of the optional channels.  Then what the writes on
    the master descriptor are handed is the chunks read from the
    controlling input, the same bytes in the same order and nothing
    else; what the writes on the primary output are handed is the chunks
    read from the master descriptor; what the writes on the mirror
    descriptor are handed is those of these chunks whose write to the
    primary output returned and after which the mirror channel was found.
    A write of the first two kinds that raises ends the loop, so all the
    chunks read but possibly the last were written. *)
Theorem relay_verbatim (pty : pty_pair) (stdin_is_tty : bool)
  (script : list iteration) (h : aftermath) :
  (2 < master_fd pty)%nat ->
  master_fd pty <> PROMPT_FD -> master_fd pty <> MIRROR_FD ->
  let tr := fst (main decode stdin_is_tty script h) in
  handed_to pty (fileno pty Master) tr
  = map Chunk (read_from pty (fileno pty Stdin) tr)
  /\ handed_to pty (fileno pty Stdout) tr
     = map Chunk (read_from pty (fileno pty Master) tr)
  /\ handed_to pty MIRROR_FD tr = map Chunk (chunks_due_to_mirror tr)
  /\ (exists lost,
        read_from pty (fileno pty Stdin) tr
        = written_to pty (fileno pty Master) tr ++ lost
        /\ (length lost <= 1)%nat)
  /\ (exists lost,
        read_from pty (fileno pty Master) tr
        = written_to pty (fileno pty Stdout) tr ++ lost
        /\ (length lost <= 1)%nat).
Proof.
  intros H2 H3 H4 tr. cbn [fileno].
  destruct (relayed_by_name decode stdin_is_tty script h) as (M & O & R).
  fold tr in M, O, R.
  destruct (by_number pty H2 H3 H4 tr (main_sites stdin_is_tty script h))
    as (Bm & Bo & Br & Rs & Rm).
  assert (A : handed_to pty (master_fd pty) tr = map Chunk (read_from pty 0 tr))
    by now rewrite Bm, Rs, M.
  assert (B : handed_to pty 1 tr = map Chunk (read_from pty (master_fd pty) tr))
    by now rewrite Bo, Rm, O.
  split; [exact A|]. split; [exact B|]. split; [now rewrite Br, R|].
  split.
  - destruct (main_last_may_fail pty (master_fd pty) stdin_is_tty script h
                H2 H3 H4 (or_introl eq_refl)) as (lost & E & Hl).
    fold tr in E. exists lost. split; [|exact Hl].
    apply chunks_inj. now rewrite <- A, E.
  - destruct (main_last_may_fail pty 1%nat stdin_is_tty script h
                H2 H3 H4 (or_intror eq_refl)) as (lost & E & Hl).
    fold tr in E. exists lost. split; [|exact Hl].
    apply chunks_inj. now rewrite <- B, E.
Qed.

(** C2, as the source has it: when the poll of the loop sees the child
    gone after [exit(N)], the wrapper exits with status [N]; when it sees
    it gone otherwise than by exiting, the wrapper exits with status 1;
    when a read meets the end of its stream, or a read or a write of the
    relay raises [OSError], which ends the loop before any such poll, the
    wrapper exits with status 0; and whenever it exits without a poll
    having seen the child gone, the status is 0. *)
Theorem exit_status (stdin_is_tty : bool) (script : list iteration)
  (h : aftermath) :
  let tr := fst (main decode stdin_is_tty script h) in
  let e := snd (main decode stdin_is_tty script h) in
  (forall N p, (0 <= N < 256)%Z -> p <> 0%Z ->
     In (Poll (Ok (p, W_EXITCODE N 0))) tr -> e = SysExit N)
  /\ (forall status p, WIFEXITED status = false -> p <> 0%Z ->
        In (Poll (Ok (p, status))) tr -> e = SysExit 1)
  /\ (forall x, In x tr ->
        is_eof x = true \/ is_primary_failure x = true -> e = SysExit 0)
  /\ (observed_exits tr = [] -> forall code, e = SysExit code -> code = 0%Z).
Proof.
  intros tr e.
  destruct (seen_exit decode stdin_is_tty script h) as (A & B & C).
  fold tr e in A, B, C.
  split; [|split; [|split]].
  - intros N p HN Hp H. rewrite (A _ p Hp H). now rewrite exited_status.
  - intros status p Hs Hp H. rewrite (A _ p Hp H).
    now rewrite abnormal_status.
  - intros x Hin [Hx|Hx].
    + destruct x as [|f [[|b data]| |]| | | | | | | | | |];
        try discriminate Hx. now apply B with f.
    + subst tr e.
      destruct (main_trace decode stdin_is_tty script h)
        as (c & st & ev & E & Rel & M).
      rewrite M in Hin. rewrite M. cbn [fst snd] in *.
      apply in_loop_event in Hin;
        [|now destruct x as [|? []|? ? []| | | | | | | | |]
         |apply after_loop_outside].
      destruct (kept_loop decode script _ _ _ _ E) as (F & _).
      destruct (F (existsb_in _ _ _ Hin Hx)) as [-> O].
      destruct Rel as (_ & _ & _ & _ & _ & _ & [[X _]|(s & O' & _)]).
      * simpl. now rewrite X.
      * now rewrite O in O'.
  - exact C.
Qed.

(** C3: in every run in which a call ended the loop, be it a read that
    met the end of its stream, the poll that saw the child gone, a call on
    which the interrupt arrived or a read or a write of the relay that
    raised [OSError], the process has ended, the saved terminal mode was
    restored once if the controlling input is a terminal and never
    otherwise, and the master descriptor was closed once; in a run in
    which no call has ended the loop, the loop still runs and neither has
    happened. *)
Theorem cleanup_once (stdin_is_tty : bool) (script : list iteration)
  (h : aftermath) :
  let tr := fst (main decode stdin_is_tty script h) in
  let e := snd (main decode stdin_is_tty script h) in
  (existsb ends_loop tr = true ->
   is_running e = false
   /\ count is_restore tr = (if stdin_is_tty then 1 else 0)%nat
   /\ count is_close_master tr = 1%nat)
  /\ (existsb ends_loop tr = false ->
      is_running e = true
      /\ count is_restore tr = 0%nat /\ count is_close_master tr = 0%nat).
Proof.
  destruct (main_trace decode stdin_is_tty script h)
    as (c & st & ev & E & Rel & ->).
  destruct Rel as (L & _). cbn [fst snd].
  rewrite (ending_call stdin_is_tty script h _ _ _ E).
  unfold count. rewrite !filter_app, !length_app.
  rewrite (quiet_filter is_restore ev), (quiet_filter is_close_master ev);
    auto; try (intros []; simpl; congruence).
  unfold after_loop, on_interrupt, finally, before_loop.
  destruct c as [| |[|]]; destruct stdin_is_tty;
    (split; intros H; try discriminate H);
    try (repeat split; reflexivity);
    destruct (kill_result h); try destruct (wait_result h);
    repeat split; reflexivity.
Qed.

End WithDecoder.

Lemma relay_verbatim_witness :
  let pty := Examples.pty_above in
  let tr := fst (@main ascii_unicode Examples.decode_ascii true
                   [Examples.keystroke; Examples.output [Byte.x68; Byte.x69];
                    Examples.keystroke_lost]
                   Examples.child_collected) in
  handed_to pty (fileno pty Master) tr
  = map Chunk (read_from pty (fileno pty Stdin) tr)
  /\ handed_to pty (fileno pty Stdout) tr
     = map Chunk (read_from pty (fileno pty Master) tr)
  /\ handed_to pty MIRROR_FD tr = map Chunk (chunks_due_to_mirror tr)
  /\ (exists lost,
        read_from pty (fileno pty Stdin) tr
        = written_to pty (fileno pty Master) tr ++ lost
        /\ (length lost <= 1)%nat)
  /\ (exists lost,
        read_from pty (fileno pty Master) tr
        = written_to pty (fileno pty Stdout) tr ++ lost
        /\ (length lost <= 1)%nat).
Proof.
  apply (@relay_verbatim ascii_unicode Examples.decode_ascii
           Examples.pty_above true
           [Examples.keystroke; Examples.output [Byte.x68; Byte.x69];
            Examples.keystroke_lost]
           Examples.child_collected).
  - simpl. lia.
  - discriminate.
  - discriminate.
Defined.

(** What the run of the witness reads and writes. *)
Example relay_of_three_turns :
  let pty := Examples.pty_above in
  let tr := fst (@main ascii_unicode Examples.decode_ascii true
                   [Examples.keystroke; Examples.output [Byte.x68; Byte.x69];
                    Examples.keystroke_lost]
                   Examples.child_collected) in
  read_from pty 0 tr = [[Byte.x79]; [Byte.x79]]
  /\ written_to pty 5 tr = [[Byte.x79]]
  /\ handed_to pty 5 tr = [Chunk [Byte.x79]; Chunk [Byte.x79]]
  /\ handed_to pty 1 tr = [Chunk [Byte.x68; Byte.x69]]
  /\ handed_to pty 4 tr = [Chunk [Byte.x68; Byte.x69]].
Proof. repeat split. Qed.

(** C1, as it is worded, fails, in five ways.  A key is read and the
    write to the master side raises [OSError]: the loop breaks and the
    byte is not written.  The child writes one byte and the write to the
    primary output raises [OSError]: the byte is not written, and the
    loop breaks before the mirror channel, which is there, is given the
    chunk.  The write to the mirror channel raises [OSError], which is
    passed over: the byte is not written there.  When the master side has
    the number 4 itself, the probe of the mirror channel finds it and the
    chunk the child wrote is written back to the master side, to which no
    chunk of the controlling input went.  And when the master side has
    the number 3, the record of a prompt is written to it. *)
Lemma relay_not_verbatim :
  (let tr := fst (@main ascii_unicode Examples.decode_ascii true
                    [Examples.keystroke_lost] Examples.child_collected) in
   read_from Examples.pty_above 0 tr = [[Byte.x79]]
   /\ written_to Examples.pty_above (master_fd Examples.pty_above) tr = [])
  /\ (let tr := fst (@main ascii_unicode Examples.decode_ascii true
                       [Examples.output_lost] Examples.child_collected) in
      mirror_fstat Examples.output_lost = Ok tt
      /\ read_from Examples.pty_above (master_fd Examples.pty_above) tr
         = [[Byte.x41]]
      /\ written_to Examples.pty_above 1 tr = []
      /\ handed_to Examples.pty_above MIRROR_FD tr = [])
  /\ (let tr := fst (@main ascii_unicode Examples.decode_ascii true
                       [Examples.mirror_fails] Examples.child_collected) in
      mirror_fstat Examples.mirror_fails = Ok tt
      /\ read_from Examples.pty_above (master_fd Examples.pty_above) tr
         = [[Byte.x41]]
      /\ written_to Examples.pty_above 1 tr = [[Byte.x41]]
      /\ written_to Examples.pty_above MIRROR_FD tr = [])
  /\ (let tr := fst (@main ascii_unicode Examples.decode_ascii true
                       [Examples.output [Byte.x41]]
                       Examples.child_collected) in
      master_fd Examples.pty_on_mirror = MIRROR_FD
      /\ read_from Examples.pty_on_mirror 0 tr = []
      /\ handed_to Examples.pty_on_mirror (master_fd Examples.pty_on_mirror) tr
         = [Chunk [Byte.x41]])
  /\ (let tr := fst (@main ascii_unicode Examples.decode_ascii true
                       [Examples.options_drawn] Examples.child_collected) in
      master_fd Examples.pty_on_prompt = PROMPT_FD
      /\ read_from Examples.pty_on_prompt 0 tr = []
      /\ handed_to Examples.pty_on_prompt (master_fd Examples.pty_on_prompt) tr
         = [RecordOf Examples.two_options_event]).
Proof. repeat split. Qed.

Lemma exit_status_witness :
  snd (@main ascii_unicode Examples.decode_ascii true
         [Examples.idle; Examples.keystroke; Examples.child_gone 768]
         Examples.child_collected)
  = SysExit 3
  /\ snd (@main ascii_unicode Examples.decode_ascii true
            [Examples.idle; Examples.child_gone 9]
            Examples.child_collected)
     = SysExit 1
  /\ snd (@main ascii_unicode Examples.decode_ascii true
            [Examples.idle; Examples.input_closed]
            Examples.child_collected)
     = SysExit 0
  /\ snd (@main ascii_unicode Examples.decode_ascii true
            [Examples.idle; master_gone]
            Examples.child_collected)
     = SysExit 0.
Proof.
  split; [|split; [|split]].
  - apply (proj1 (@exit_status ascii_unicode Examples.decode_ascii true
                    [Examples.idle; Examples.keystroke;
                     Examples.child_gone 768]
                    Examples.child_collected) 3%Z 4242%Z).
    + lia.
    + discriminate.
    + vm_compute. repeat (first [left; reflexivity | right]).
  - apply (proj1 (proj2 (@exit_status ascii_unicode Examples.decode_ascii true
                    [Examples.idle; Examples.child_gone 9]
                    Examples.child_collected)) 9%Z 4242%Z).
    + reflexivity.
    + discriminate.
    + vm_compute. repeat (first [left; reflexivity | right]).
  - apply (proj1 (proj2 (proj2 (@exit_status ascii_unicode
                    Examples.decode_ascii true
                    [Examples.idle; Examples.input_closed]
                    Examples.child_collected))) (Read Stdin (Ok []))).
    + vm_compute. repeat (first [left; reflexivity | right]).
    + left. reflexivity.
  - apply (proj1 (proj2 (proj2 (@exit_status ascii_unicode
                    Examples.decode_ascii true
                    [Examples.idle; master_gone]
                    Examples.child_collected))) (Read Master OSError)).
    + vm_compute. repeat (first [left; reflexivity | right]).
    + right. reflexivity.
Defined.

(** C2, as it is worded, fails: the child has left with status 3, as the
    poll would tell; the read on the master side raises [OSError], no read
    meets the end of a stream, the loop breaks before the poll and the
    wrapper exits with status 0. *)
Lemma exit_code_lost :
  let run := @main ascii_unicode Examples.decode_ascii true
               [Examples.idle; master_gone] Examples.child_collected in
  poll master_gone = Ok (4242%Z, W_EXITCODE 3 0)
  /\ In (Read Master OSError) (fst run)
  /\ filter is_eof (fst run) = []
  /\ snd run = SysExit 0
  /\ snd run <> SysExit 3.
Proof.
  repeat split; try reflexivity.
  - vm_compute. repeat (first [left; reflexivity | right]).
  - discriminate.
Qed.

Lemma cleanup_once_witness :
  let run := fun script =>
    @main ascii_unicode Examples.decode_ascii true script
      Examples.child_collected in
  let cleaned := fun script =>
    is_running (snd (run script)) = false
    /\ count is_restore (fst (run script)) = 1%nat
    /\ count is_close_master (fst (run script)) = 1%nat in
  cleaned [Examples.idle; Examples.input_closed]
  /\ cleaned [Examples.idle; Examples.child_gone 768]
  /\ cleaned [Examples.idle; Examples.interrupted]
  /\ cleaned [Examples.idle; Examples.output_lost].
Proof.
  intros run cleaned. unfold cleaned, run.
  split; [|split; [|split]].
  - apply (proj1 (@cleanup_once ascii_unicode Examples.decode_ascii true
                    [Examples.idle; Examples.input_closed]
                    Examples.child_collected)).
    reflexivity.
  - apply (proj1 (@cleanup_once ascii_unicode Examples.decode_ascii true
                    [Examples.idle; Examples.child_gone 768]
                    Examples.child_collected)).
    reflexivity.
  - apply (proj1 (@cleanup_once ascii_unicode Examples.decode_ascii true
                    [Examples.idle; Examples.interrupted]
                    Examples.child_collected)).
    reflexivity.
  - apply (proj1 (@cleanup_once ascii_unicode Examples.decode_ascii true
                    [Examples.idle; Examples.output_lost]
                    Examples.child_collected)).
    reflexivity.
Defined.

End RelayEnds.

(* ================================================================== *)
(** ** The buffer, the status word, the geometry *)

Module Small.
Import PyStr Detector Sys Geometry Relay Turns RelayFacts.

Unset Implicit Arguments.

Lemma cap_skipn (buf : str) : cap buf = skipn (length buf - 2048) buf.
Proof.
  unfold cap. destruct (Nat.ltb_spec 2048 (length buf)); [reflexivity|].
  now replace (length buf - 2048)%nat with 0%nat by lia.
Qed.

(** X16: trimming after every append gives what trimming once gives:
    [cap (cap x ++ y) = cap (x ++ y)], and trimming twice changes nothing;
    so as long as no prompt is taken out, the buffer holds the last 2048
    characters of all the text fed, however it was cut into chunks. *)
Theorem cap_after_each_append (x y : str) :
  cap (cap x ++ y) = cap (x ++ y) /\ cap (cap x) = cap x.
Proof.
  assert (A : forall x y, cap (cap x ++ y) = cap (x ++ y)).
  { clear. intros x y. rewrite (cap_skipn x).
    set (k := (length x - 2048)%nat).
    assert (E : skipn k x ++ y = skipn k (x ++ y)).
    { rewrite skipn_app.
      replace (k - length x)%nat with 0%nat by (unfold k; lia).
      reflexivity. }
    rewrite E, !cap_skipn, skipn_skipn, length_skipn, !length_app.
    f_equal. unfold k. lia. }
  split; [apply A|].
  specialize (A x []). now rewrite !app_nil_r in A.
Qed.

Section WithDecoder.
Context {U : Unicode}.
Variable decode : bytes -> str.

Lemma killed_status (ret sig : Z) :
  (0 <= ret)%Z -> (1 <= sig <= 127)%Z ->
  exit_code_of (W_EXITCODE ret sig) = 1%Z.
Proof.
  intros Hr Hs. unfold exit_code_of, WIFEXITED, W_EXITCODE.
  assert (E : Z.land (Z.lor (Z.shiftl ret 8) sig) 127 = sig).
  { change 127%Z with (Z.ones 7).
    rewrite Z.land_lor_distr_l, !Z.land_ones by lia.
    rewrite Z.shiftl_mul_pow2 by lia.
    replace (ret * 2 ^ 8)%Z with (ret * 2 * 2 ^ 7)%Z by lia.
    rewrite Z.mod_mul by lia. rewrite Z.lor_0_l.
    apply Z.mod_small. lia. }
  rewrite E. destruct (Z.eqb_spec sig 0); [lia|reflexivity].
Qed.

(** X17: when the poll of the loop sees the child gone, killed by a
    signal, whichever of the signals 1 to 127 it was, the wrapper exits
    with status 1. *)
Theorem killed_child_exits_one (stdin_is_tty : bool)
  (script : list iteration) (h : aftermath) (p sig : Z) :
  p <> 0%Z -> (1 <= sig <= 127)%Z ->
  In (Poll (Ok (p, W_EXITCODE 0 sig)))
     (fst (main decode stdin_is_tty script h)) ->
  snd (main decode stdin_is_tty script h) = SysExit 1.
Proof.
  intros Hp Hs. destruct (main_trace decode stdin_is_tty script h)
    as (c & st & ev & _ & Rel & ->).
  destruct Rel as (_ & _ & _ & _ & T & _ & X). cbn [fst snd].
  pose proof (after_loop_outside stdin_is_tty c st h) as Hout.
  destruct (around_loop Master stdin_is_tty ev _ Hout T)
    as (_ & _ & HO & _).
  intros H. apply (observed_exits_in p _ _ Hp) in H. rewrite HO in H.
  destruct c as [| |e];
    [destruct X as (_ & X & _); now rewrite X in H| |
     destruct X as (_ & X & _); now rewrite X in H].
  destruct X as [[_ X]|(s & X & C & _)]; rewrite X in H; [contradiction|].
  destruct H as [->|[]]. simpl. rewrite C.
  now rewrite killed_status by lia.
Qed.

End WithDecoder.

Lemma killed_child_exits_one_witness :
  snd (@main ascii_unicode Examples.decode_ascii true
         [Examples.idle; Examples.child_gone 9] Examples.child_collected)
  = SysExit 1.
Proof.
  apply (@killed_child_exits_one ascii_unicode Examples.decode_ascii true
           [Examples.idle; Examples.child_gone 9] Examples.child_collected
           4242%Z 9%Z); [discriminate|lia|].
  vm_compute. repeat (first [left; reflexivity | right]).
Defined.

(** X18: run for an interactive input whose size is known, the handler
    gives the pseudo-terminal the geometry of the terminal exactly when
    the terminal has as many columns as lines. *)
Theorem sigwinch_right_on_squares (size : terminal_size) (pty : winsize) :
  handle_sigwinch true (Some size) pty = geometry_of size
  <-> columns size = lines size.
Proof.
  unfold handle_sigwinch, unpack, set_winsize, geometry_of. split.
  - now intros [= H _].
  - now intros ->.
Qed.

Lemma sigwinch_right_on_squares_witness :
  handle_sigwinch true (Some {| columns := 40; lines := 40 |})
    (set_winsize 24 80)
  = geometry_of {| columns := 40; lines := 40 |}.
Proof.
  apply (proj2 (sigwinch_right_on_squares {| columns := 40; lines := 40 |}
                  (set_winsize 24 80))).
  reflexivity.
Defined.

End Small.

(* ================================================================== *)
(** ** The prompt record is one line *)

Module RecordFacts.
Import PyStr Detector Lines Record DetectorMore.

Unset Implicit Arguments.
Local Open Scope N_scope.

Lemma hex_digit_printable (n : N) : n < 16 -> printable (hex_digit n) = true.
Proof.
  intros H. unfold printable, in_range, hex_digit.
  destruct (N.ltb_spec n 10); apply andb_true_iff; split; apply N.leb_le; lia.
Qed.

Lemma u_escape_printable (n : N) : forallb printable (u_escape n) = true.
Proof.
  unfold u_escape, hex4. cbn [forallb].
  rewrite !hex_digit_printable by (apply N.mod_lt; lia). reflexivity.
Qed.

Lemma escape_char_printable (c : char) :
  forallb printable (escape_char c) = true.
Proof.
  unfold escape_char.
  repeat match goal with
    | |- context [if ?b then _ else _] =>
        destruct b eqn:?; [try reflexivity|]
    end.
  - cbn [forallb]. now rewrite Heqb6.
  - apply u_escape_printable.
  - rewrite forallb_app, !u_escape_printable. reflexivity.
Qed.

Lemma dumps_str_printable (s : str) : forallb printable (dumps_str s) = true.
Proof.
  unfold dumps_str. cbn [forallb]. rewrite forallb_app. simpl.
  rewrite andb_true_r.
  induction s as [|c s IH]; [reflexivity|].
  simpl. now rewrite forallb_app, escape_char_printable, IH.
Qed.

Lemma digits_printable (u : Decimal.uint) : forallb printable (digits u) = true.
Proof. induction u; simpl; auto. Qed.

Lemma dumps_option_printable (o : option_entry) :
  forallb printable (dumps_option o) = true.
Proof.
  unfold dumps_option, dumps_int. cbn [forallb].
  rewrite !forallb_app, digits_printable, dumps_str_printable.
  now destruct (requiresInput o).
Qed.

Lemma sep_by_printable (sep : str) (items : list str) :
  forallb printable sep = true ->
  Forall (fun x => forallb printable x = true) items ->
  forallb printable (sep_by sep items) = true.
Proof.
  intros Hs. induction 1 as [|x xs Hx _ IH]; [reflexivity|].
  destruct xs as [|y xs]; [exact Hx|].
  change (sep_by sep (x :: y :: xs)) with (x ++ sep ++ sep_by sep (y :: xs)).
  now rewrite !forallb_app, Hx, Hs, IH.
Qed.

Lemma dumps_prompt_printable (p : prompt) :
  forallb printable (dumps_prompt p) = true.
Proof.
  unfold dumps_prompt. cbn [forallb].
  rewrite !forallb_app. cbn [forallb].
  rewrite !forallb_app, !dumps_str_printable, sep_by_printable.
  - reflexivity.
  - reflexivity.
  - apply Forall_map, Forall_forall. intros o _.
    apply dumps_option_printable.
Qed.

(** X19: the record written for a prompt is one line: its text holds
    printable ASCII characters only, whatever characters the question and
    the labels hold, and the line feed that ends it is its only one. *)
Theorem record_is_one_line (p : prompt) :
  forallb printable (dumps_prompt p) = true
  /\ split_nl (json_line p) = [dumps_prompt p; []].
Proof.
  pose proof (dumps_prompt_printable p) as H.
  split; [exact H|]. unfold json_line.
  rewrite split_nl_join, split_nl_plain; [reflexivity|].
  unfold no_LF. revert H. apply forallb_impl.
  intros c Hc. unfold printable, in_range in Hc.
  apply andb_true_iff in Hc. destruct Hc as [Hc _]. apply N.leb_le in Hc.
  apply negb_true_iff, N.eqb_neq. unfold LF. lia.
Qed.

Section ReadBack.
Context {U : Unicode}.

Lemma digit_value_ascii (c : char) :
  is_ascii c = true ->
  digit_value c = match ascii_decimal c with Some v => v | None => 0 end.
Proof. intros H. unfold digit_value. now rewrite todecimal_ascii. Qed.

Lemma fold_digits (u : Decimal.uint) :
  forall d',
    fold_left (fun acc c => 10 * acc + digit_value c) (digits u)
      (DecimalPos.Unsigned.of_lu d')
    = DecimalPos.Unsigned.of_lu (Decimal.revapp u d').
Proof.
  induction u; intros d'; cbn [digits fold_left Decimal.revapp];
    [reflexivity| ..];
    rewrite <- IHu; f_equal;
    rewrite digit_value_ascii by reflexivity.
  all: cbn [DecimalPos.Unsigned.of_lu].
  all: match goal with
       | |- context [ascii_decimal ?c] =>
           let v := eval vm_compute in (ascii_decimal c) in
           change (ascii_decimal c) with v
       end.
  all: cbv beta iota; lia.
Qed.

(** X25: the decimal text the record holds for an id, read by [int] as
    the detector reads the digits of a line, gives the id back. *)
Theorem id_reads_back (n : N) : int_of (dumps_int n) = n.
Proof.
  unfold int_of, dumps_int.
  change 0 with (DecimalPos.Unsigned.of_lu Decimal.Nil).
  rewrite fold_digits.
  change (Decimal.revapp (N.to_uint n) Decimal.Nil)
    with (Decimal.rev (N.to_uint n)).
  rewrite <- DecimalPos.Unsigned.of_uint_alt.
  apply DecimalN.Unsigned.of_to.
Qed.

End ReadBack.

End RecordFacts.

(* ================================================================== *)
(** ** The child's descriptors and the simple wrapper *)

Module StartupFacts.
Import PyStr Sys Startup.

Unset Implicit Arguments.

Section Descriptors.
Variable file : Type.

Lemma close_spec (fd : nat) (t : table file) (f : file) :
  t fd = Some f ->
  exists t', close fd t = Some t'
             /\ forall k, t' k = if Nat.eqb k fd then None else t k.
Proof. intros H. unfold close. rewrite H. now eexists. Qed.

Lemma dup2_spec (fd fd2 : nat) (t : table file) (f : file) :
  t fd = Some f ->
  exists t', dup2 fd fd2 t = Some t'
             /\ forall k, t' k = if Nat.eqb k fd2 then Some f else t k.
Proof.
  intros H. unfold dup2. rewrite H.
  destruct (Nat.eqb_spec fd fd2) as [->|Hne].
  - exists t. split; [reflexivity|]. intros k.
    destruct (Nat.eqb_spec k fd2) as [->|]; auto.
  - eexists. split; [reflexivity|]. intros k. reflexivity.
Qed.

Ltac lookups :=
  repeat match goal with
    | |- context [Nat.eqb ?a ?b] => destruct (Nat.eqb_spec a b); subst
    end;
  try lia; try congruence; auto.

(** X20: in the child, whatever the numbers of the two descriptors of
    the pseudo-terminal, the set-up succeeds and leaves descriptors 0, 1
    and 2 on the slave side; above 2 it closes both descriptors of the
    pseudo-terminal and leaves every other descriptor as inherited. *)
Theorem child_stdio_on_slave (master_fd slave_fd : nat) (t : table file)
  (m s : file) :
  t master_fd = Some m -> t slave_fd = Some s -> master_fd <> slave_fd ->
  exists t',
    child_descriptors master_fd slave_fd t = Some t'
    /\ t' 0%nat = Some s /\ t' 1%nat = Some s /\ t' 2%nat = Some s
    /\ forall fd, (2 < fd)%nat ->
         t' fd = if Nat.eqb fd master_fd || Nat.eqb fd slave_fd then None
                 else t fd.
Proof.
  intros Hm Hs Hne. unfold child_descriptors.
  destruct (close_spec master_fd t m Hm) as (t1 & -> & E1). cbn [and_then].
  assert (S1 : t1 slave_fd = Some s) by (rewrite E1; lookups).
  destruct (dup2_spec slave_fd 0 t1 s S1) as (t2 & -> & E2). cbn [and_then].
  assert (S2 : t2 slave_fd = Some s) by (rewrite E2; lookups).
  destruct (dup2_spec slave_fd 1 t2 s S2) as (t3 & -> & E3). cbn [and_then].
  assert (S3 : t3 slave_fd = Some s) by (rewrite E3; lookups).
  destruct (dup2_spec slave_fd 2 t3 s S3) as (t4 & -> & E4). cbn [and_then].
  assert (S4 : t4 slave_fd = Some s) by (rewrite E4; lookups).
  destruct (Nat.ltb_spec 2 slave_fd) as [Hgt|Hle].
  - destruct (close_spec slave_fd t4 s S4) as (t5 & -> & E5).
    exists t5. split; [reflexivity|].
    repeat split; try intros fd Hfd;
      rewrite E5, E4, ?E3, ?E2, ?E1; lookups; simpl; lookups.
  - exists t4. split; [reflexivity|].
    repeat split; try intros fd Hfd;
      rewrite E4, ?E3, ?E2, ?E1; lookups; simpl; lookups.
Qed.

End Descriptors.

Lemma child_stdio_on_slave_witness :
  exists t',
    child_descriptors 3 1
      (fun k => match k with
                | 0 => Some 100 | 1 => Some 200 | 3 => Some 300 | 4 => Some 400
                | _ => None
                end%nat) = Some t'
    /\ t' 0%nat = Some 200%nat /\ t' 1%nat = Some 200%nat
    /\ t' 2%nat = Some 200%nat
    /\ forall fd, (2 < fd)%nat ->
         t' fd = if Nat.eqb fd 3 || Nat.eqb fd 1 then None
                 else match fd with
                      | 0 => Some 100 | 1 => Some 200 | 3 => Some 300
                      | 4 => Some 400 | _ => None
                      end%nat.
Proof.
  apply (child_stdio_on_slave nat 3 1 _ 300%nat 200%nat);
    [reflexivity|reflexivity|discriminate].
Defined.

(** X21: the simple wrapper hands [sys.exit] the status word of
    [waitpid] as it is: for a child that left with [exit(N)] that is
    [256 * N], of which the system reports the low eight bits, 0, whatever
    [N] was. *)
Theorem simple_wrapper_loses_exit_code (argv : list str)
  (spawn : list str -> Z) (N : Z) :
  (2 <= length argv)%nat -> (0 <= N <= 255)%Z ->
  spawn (tl argv) = W_EXITCODE N 0 ->
  simple_wrapper argv spawn = [Spawn (tl argv); SysExitWith (256 * N)]
  /\ reported (256 * N) = 0%Z.
Proof.
  intros Ha HN Hs. unfold simple_wrapper.
  destruct (Nat.ltb_spec (length argv) 2); [lia|].
  rewrite Hs. unfold W_EXITCODE, reported.
  rewrite Z.lor_0_r, Z.shiftl_mul_pow2 by lia.
  replace (N * 2 ^ 8)%Z with (256 * N)%Z by lia.
  split; [reflexivity|].
  rewrite Z.mul_comm. apply Z.mod_mul. lia.
Qed.

Lemma simple_wrapper_loses_exit_code_witness :
  simple_wrapper [lit "pty-wrapper-simple.py"; lit "false"] (fun _ => 256%Z)
  = [Spawn [lit "false"]; SysExitWith 256]
  /\ reported 256 = 0%Z.
Proof.
  apply (simple_wrapper_loses_exit_code
           [lit "pty-wrapper-simple.py"; lit "false"] (fun _ => 256%Z) 1%Z);
    [simpl; lia|lia|reflexivity].
Defined.

End StartupFacts.
